(** * ML logs transformer: a shallow embedding of [app/etl.py]

    The pipeline of [app/etl.py] is a sequence of declarative DataFrame
    transformations.  A DataFrame is embedded as the list of its rows, a row
    as a record whose fields are nullable ([option]), and every engine
    primitive the source calls ([join], [select], [withColumn],
    [to_timestamp], [unix_timestamp], [filter], [groupBy], [agg], [max],
    [min]) as a function on those lists, with SQL's null propagation written
    out.  Of these [to_timestamp] alone can raise; a table computed through
    it is an outcome, the rows or the exception that an action on it gets.
    What a session fixes about timestamps and [etl.py] leaves unset, its
    time zone and the parser of the engine's earlier versions, is a
    parameter of the embedding.  Row order is an artefact of the list
    embedding: the engine promises none, and no statement below depends on
    more than the order the embedding itself fixes. *)

From Stdlib Require Import ZArith List String Ascii Bool Lia.
From Stdlib Require Import Floats.SpecFloat.
From Stdlib Require Decimal DecimalString DecimalPos DecimalZ.
From Stdlib Require Import Permutation.
Import ListNotations.

Local Open Scope Z_scope.

(** ** Python effects: exceptions and standard output *)

Module Py.

(** An exception: whether its class derives from [Exception] (and not only
    from [BaseException]), and what [str] gives for it. *)
Record exn := mkExn { is_Exception : bool; str : string }.

Inductive outcome (A : Type) :=
| Return (a : A)
| Raise (e : exn).
Arguments Return {A}.
Arguments Raise {A}.

(** Sequencing of two steps either of which may raise. *)
Definition and_then {A B : Type} (o : outcome A) (k : A -> outcome B) :
    outcome B :=
  match o with
  | Return a => k a
  | Raise e => Raise e
  end.

Definition fmap {A B : Type} (f : A -> B) (o : outcome A) : outcome B :=
  and_then o (fun a => Return (f a)).

(** A step done for every element of a list, in order; the first exception
    ends it. *)
Fixpoint for_each {A B : Type} (f : A -> outcome B) (l : list A) :
    outcome (list B) :=
  match l with
  | [] => Return []
  | a :: rest =>
      and_then (f a)
        (fun b => and_then (for_each f rest) (fun bs => Return (b :: bs)))
  end.

Section World.
  (** The state of the engine outside the program. *)
Variable Engine : Type.

Record world := mkWorld { engine : Engine; stdout : list string }.

Definition M (A : Type) : Type := world -> outcome A * world.

Definition ret {A} (a : A) : M A := fun w => (Return a, w).

Definition bind {A B} (m : M A) (k : A -> M B) : M B :=
    fun w =>
      match m w with
      | (Return a, w') => k a w'
      | (Raise e, w') => (Raise e, w')
      end.

Definition raise {A} (e : exn) : M A := fun w => (Raise e, w).

Definition print (line : string) : M unit :=
    fun w => (Return tt, mkWorld (engine w) (stdout w ++ [line])).

  (** [try: body  except Exception as e: handler e]. *)
Definition try_except_Exception {A} (body : M A) (handler : exn -> M A) :
      M A :=
    fun w =>
      match body w with
      | (Return a, w') => (Return a, w')
      | (Raise e, w') =>
          if is_Exception e then handler e w' else (Raise e, w')
      end.

  (** A call into the engine: it answers or raises, and moves on. *)
Definition call {A} (f : Engine -> outcome A * Engine) : M A :=
    fun w =>
      let (r, st) := f (engine w) in (r, mkWorld st (stdout w)).
End World.

Arguments mkWorld {Engine}.
Arguments engine {Engine}.
Arguments stdout {Engine}.
Arguments ret {Engine A}.
Arguments bind {Engine A B}.
Arguments raise {Engine A}.
Arguments print {Engine}.
Arguments try_except_Exception {Engine A}.
Arguments call {Engine A}.

End Py.

(** ** Engine values *)

Module Sql.

(** [FloatType] is IEEE binary32 and [DoubleType] IEEE binary64; both are
    carried by [spec_float], with the format given where an operation
    rounds. *)
Definition float32 := spec_float.
Definition double := spec_float.

(** [IntegerType], 32 bits; the pipeline compares and copies such cells and
    never computes with them. *)
Definition int : Type := Z.

Definition prec64 : Z := 53.
Definition emax64 : Z := 1024.
Definition prec32 : Z := 24.
Definition emax32 : Z := 128.

Definition is_nan (x : spec_float) : bool :=
  match x with S754_nan => true | _ => false end.

(** The engine orders floating-point columns by
    [if (x == y) 0 else java.lang.Double.compare(x, y)]: IEEE comparison,
    except that NaN equals NaN and is greater than every other value. *)
Definition compareDoubles (x y : spec_float) : comparison :=
  if SFeqb x y then Eq
  else if SFltb x y then Lt
  else if SFltb y x then Gt
  else match is_nan x, is_nan y with
       | true, true => Eq
       | true, false => Gt
       | false, _ => Lt
       end.

Definition compareFloats : float32 -> float32 -> comparison := compareDoubles.

(** [Cast(IntegerType|LongType -> DoubleType)], round to nearest even. *)
Definition double_of_Z (z : Z) : double :=
  binary_normalize prec64 emax64 z 0 false.

(** A [FloatType] cell holding an integral value, for test data. *)
Definition float32_of_Z (z : Z) : float32 :=
  binary_normalize prec32 emax32 z 0 false.

(** [LongType] arithmetic wraps around at 64 bits. *)
Definition wrap64 (z : Z) : Z := (z + 2 ^ 63) mod 2 ^ 64 - 2 ^ 63.

Definition long_sub (a b : option Z) : option Z :=
  match a, b with
  | Some x, Some y => Some (wrap64 (x - y))
  | _, _ => None
  end.

(** [Divide]: both operands are cast to double; a null operand or a zero
    divisor gives null. *)
Definition divide (a b : option Z) : option double :=
  match a, b with
  | Some x, Some y =>
      if SFeqb (double_of_Z y) (S754_zero false) then None
      else Some (SFdiv prec64 emax64 (double_of_Z x) (double_of_Z y))
  | _, _ => None
  end.

(** [GreaterThan] under three-valued logic. *)
Definition gt (a b : option double) : option bool :=
  match a, b with
  | Some x, Some y =>
      Some match compareDoubles x y with Gt => true | _ => false end
  | _, _ => None
  end.

(** [EqualTo] on integer columns, as a join condition evaluates it: a null
    on either side is not a match. *)
Definition eq_int (a b : option int) : option bool :=
  match a, b with
  | Some x, Some y => Some (x =? y)
  | _, _ => None
  end.

(** [filter] and join conditions keep a row only when the predicate is
    true; false and null both drop it. *)
Definition is_true (b : option bool) : bool :=
  match b with Some true => true | _ => false end.

(** [Greatest] and [Least], the update expressions of the [max] and [min]
    aggregates: nulls are skipped, the running value is replaced only by a
    strictly greater (smaller) one. *)
Definition greatest (acc v : option float32) : option float32 :=
  match acc, v with
  | None, _ => v
  | Some _, None => acc
  | Some a, Some b =>
      match compareFloats b a with Gt => Some b | _ => Some a end
  end.

Definition least (acc v : option float32) : option float32 :=
  match acc, v with
  | None, _ => v
  | Some _, None => acc
  | Some a, Some b =>
      match compareFloats b a with Lt => Some b | _ => Some a end
  end.

Definition max (vs : list (option float32)) : option float32 :=
  fold_left greatest vs None.

Definition min (vs : list (option float32)) : option float32 :=
  fold_left least vs None.

(** The rows of a table whose key is equal, and not null, to a given key. *)
Definition matching {B : Type} (kb : B -> option int) (k : option int)
    (right : list B) : list B :=
  filter (fun b => is_true (eq_int k (kb b))) right.

(** [join(right, on=key, how="inner")]: every pair of a left row and a right
    row matching its key. *)
Definition inner_join {A B : Type} (ka : A -> option int)
    (kb : B -> option int)
    (left : list A) (right : list B) : list (A * B) :=
  flat_map (fun a => map (pair a) (matching kb (ka a) right)) left.

(** Grouping keys of [groupBy("expId", "metricId")]: two nullable integers;
    grouping puts nulls together. *)
Definition key : Type := option int * option int.

Definition key_eq_dec (k1 k2 : key) : {k1 = k2} + {k1 <> k2}.
Proof. repeat decide equality. Defined.

Definition key_eqb (k1 k2 : key) : bool :=
  if key_eq_dec k1 k2 then true else false.

(** [groupBy]: one group per distinct key, holding the rows with that
    key. *)
Definition groupBy {R : Type} (kf : R -> key) (data : list R) :
    list (key * list R) :=
  map (fun k => (k, filter (fun r => key_eqb (kf r) k) data))
      (nodup key_eq_dec (map kf data)).

(** [DataFrameWriter.partitionBy(col)] on an integer column: one directory
    per distinct value of the column, named [col=value] with the value in
    decimal, a null value going to the default partition; each directory
    holds the rows with that value. *)
Definition partition_value (v : option int) : string :=
  match v with
  | Some z => DecimalString.NilZero.string_of_int (Z.to_int z)
  | None => "__HIVE_DEFAULT_PARTITION__"
  end.

Definition partition_dir (col : string) (v : option int) : string :=
  (col ++ "=" ++ partition_value v)%string.

Definition int_eq_dec (a b : option int) : {a = b} + {a <> b}.
Proof. repeat decide equality. Defined.

Definition partitionBy {R : Type} (col : string) (kf : R -> option int)
    (data : list R) : list (string * list R) :=
  map
    (fun v =>
       (partition_dir col v,
        filter (fun r => if int_eq_dec (kf r) v then true else false) data))
    (nodup int_eq_dec (map kf data)).

(** Column types of a schema. *)
Inductive data_type :=
| StringType | IntegerType | BooleanType | FloatType
| DoubleType | TimestampType.

Definition schema : Type := list (string * data_type).

Definition column_type (name : string) (s : schema) : option data_type :=
  match find (fun c => String.eqb (fst c) name) s with
  | Some c => Some (snd c)
  | None => None
  end.

(** [select(names)]: the named columns, in the order asked; nothing when a
    name is not a column. *)
Fixpoint select_schema (names : list string) (s : schema) : option schema :=
  match names with
  | [] => Some []
  | n :: rest =>
      match column_type n s, select_schema rest s with
      | Some t, Some cs => Some ((n, t) :: cs)
      | _, _ => None
      end
  end.

(** [join(right, on=key)]: the key once, then the other columns of the left
    table, then those of the right. *)
Definition join_schema (key : string) (left right : schema) : option schema :=
  match column_type key left, column_type key right with
  | Some t, Some _ =>
      let others := filter (fun c => negb (String.eqb (fst c) key)) in
      Some ((key, t) :: others left ++ others right)
  | _, _ => None
  end.

(** [withColumn(name, e)] with a name the table does not have: one more
    column, last. *)
Definition withColumn_schema (name : string) (t : data_type) (s : schema) :
    schema :=
  s ++ [(name, t)].

Inductive aggregate := Max | Min.

(** [max] and [min] give a column of the type of the column they read. *)
Fixpoint aggregates_schema (aggs : list (aggregate * string * string))
    (s : schema) : option schema :=
  match aggs with
  | [] => Some []
  | (_, col, alias) :: rest =>
      match column_type col s, aggregates_schema rest s with
      | Some t, Some cs => Some ((alias, t) :: cs)
      | _, _ => None
      end
  end.

(** [groupBy(keys).agg(aggs)]: the grouping columns, then one column per
    aggregate under its alias. *)
Definition agg_schema (keys : list string)
    (aggs : list (aggregate * string * string)) (s : schema) :
    option schema :=
  match select_schema keys s, aggregates_schema aggs s with
  | Some ks, Some cs => Some (ks ++ cs)
  | _, _ => None
  end.

(** The values a cell of [IntegerType] and of [FloatType] can hold: 32-bit
    integers, IEEE binary32 numbers. *)
Definition is_int32 (z : Z) : bool := (- 2 ^ 31 <=? z) && (z <? 2 ^ 31).

Definition is_float32 (x : spec_float) : bool := valid_binary prec32 emax32 x.

(** A cell as a value of its column's type; null is a value of every
    type. *)
Inductive cell :=
| IntCell (v : option Z)
| FloatCell (v : option spec_float).

Definition cell_has_type (c : cell) (t : data_type) : bool :=
  match c, t with
  | IntCell None, IntegerType => true
  | IntCell (Some z), IntegerType => is_int32 z
  | FloatCell None, FloatType => true
  | FloatCell (Some x), FloatType => is_float32 x
  | _, _ => false
  end.

End Sql.

(** ** Timestamps *)

Module Datetime.

(** [TimestampType]: microseconds since 1970-01-01T00:00:00Z, a 64-bit
    count. *)
Definition timestamp : Type := Z.

Inductive field := Year | Month | Day | Hour | Minute | Second.

(** How a numeric value of a pattern takes a sign
    ([java.time.format.SignStyle]). *)
Inductive sign_style := NotNegative | ExceedsPad.

Inductive item :=
| Value (f : field) (min_width max_width : nat) (sign : sign_style)
| Literal (c : ascii).

(** The pattern [yyyy-MM-dd'T'HH:mm:ss] as the engine compiles it.  With no
    era letter in the pattern the year letters stand for the proleptic year;
    four of them take four digits, or up to nineteen behind a sign.  Two
    letters take exactly two digits and no sign. *)
Definition pattern : list item :=
  [ Value Year 4 19 ExceedsPad; Literal "-";
    Value Month 2 2 NotNegative; Literal "-";
    Value Day 2 2 NotNegative; Literal "T";
    Value Hour 2 2 NotNegative; Literal ":";
    Value Minute 2 2 NotNegative; Literal ":";
    Value Second 2 2 NotNegative ].

Record fields := mkFields
  { year : Z; month : Z; day : Z; hour : Z; minute : Z; second : Z }.

(** Fields a pattern leaves out default to 1970-01-01T00:00:00. *)
Definition default_fields : fields := mkFields 1970 1 1 0 0 0.

Definition set_field (f : field) (v : Z) (fs : fields) : fields :=
  match f with
  | Year => mkFields v (month fs) (day fs) (hour fs) (minute fs) (second fs)
  | Month => mkFields (year fs) v (day fs) (hour fs) (minute fs) (second fs)
  | Day => mkFields (year fs) (month fs) v (hour fs) (minute fs) (second fs)
  | Hour => mkFields (year fs) (month fs) (day fs) v (minute fs) (second fs)
  | Minute => mkFields (year fs) (month fs) (day fs) (hour fs) v (second fs)
  | Second => mkFields (year fs) (month fs) (day fs) (hour fs) (minute fs) v
  end.

Definition digit (c : ascii) : option Z :=
  let n := Z.of_nat (nat_of_ascii c) in
  if (48 <=? n) && (n <=? 57) then Some (n - 48) else None.

(** The digits at the head of a text, [most] of them at most: their value,
    their number, and the text after them. *)
Fixpoint read_digits (most : nat) (cs : list ascii) (acc : Z) (n : nat) :
    Z * nat * list ascii :=
  match most, cs with
  | S m, c :: rest =>
      match digit c with
      | Some d => read_digits m rest (10 * acc + d) (S n)
      | None => (acc, n, cs)
      end
  | _, _ => (acc, n, cs)
  end.

(** A value in strict parsing: at least [min_width] digits.  [NotNegative]
    takes no sign.  [ExceedsPad] takes a minus sign before a value that is
    not zero, a plus sign before more than [min_width] digits, and without a
    sign no more than [min_width] digits. *)
Definition read_value (min_width max_width : nat) (sign : sign_style)
    (cs : list ascii) : option (Z * list ascii) :=
  let signed : option bool * list ascii :=
    match cs with
    | c :: rest =>
        if Ascii.eqb c "+" then (Some true, rest)
        else if Ascii.eqb c "-" then (Some false, rest)
        else (None, cs)
    | [] => (None, cs)
    end in
  match sign, fst signed with
  | NotNegative, Some _ => None
  | _, _ =>
      let '(v, n, rest) := read_digits max_width (snd signed) 0 0 in
      if (n <? min_width)%nat then None
      else
        match fst signed with
        | Some false => if v =? 0 then None else Some (- v, rest)
        | Some true => if (min_width <? n)%nat then Some (v, rest) else None
        | None =>
            match sign with
            | ExceedsPad =>
                if (min_width <? n)%nat then None else Some (v, rest)
            | NotNegative => Some (v, rest)
            end
        end
  end.

(** The engine builds its formatter with [parseCaseInsensitive]: a literal
    letter matches in either case. *)
Definition upper (c : ascii) : ascii :=
  let n := nat_of_ascii c in
  if ((97 <=? n) && (n <=? 122))%nat then ascii_of_nat (n - 32) else c.

Definition same_letter (a b : ascii) : bool := Ascii.eqb (upper a) (upper b).

(** The whole text must be consumed. *)
Fixpoint parse_items (items : list item) (cs : list ascii) (fs : fields) :
    option fields :=
  match items with
  | [] => match cs with [] => Some fs | _ :: _ => None end
  | Value f lo hi sign :: rest =>
      match read_value lo hi sign cs with
      | Some (v, cs') => parse_items rest cs' (set_field f v fs)
      | None => None
      end
  | Literal c :: rest =>
      match cs with
      | c' :: cs' => if same_letter c c' then parse_items rest cs' fs else None
      | [] => None
      end
  end.

Definition is_leap (y : Z) : bool :=
  (y mod 4 =? 0) && (negb (y mod 100 =? 0) || (y mod 400 =? 0)).

Definition days_in_month (y m : Z) : Z :=
  if m =? 2 then (if is_leap y then 29 else 28)
  else if (m =? 4) || (m =? 6) || (m =? 9) || (m =? 11) then 30
  else 31.

(** Strict resolution: every field in its range, the day valid for the
    month and year. *)
Definition valid (fs : fields) : bool :=
  (-999999999 <=? year fs) && (year fs <=? 999999999)
  && (1 <=? month fs) && (month fs <=? 12)
  && (1 <=? day fs) && (day fs <=? days_in_month (year fs) (month fs))
  && (0 <=? hour fs) && (hour fs <? 24)
  && (0 <=? minute fs) && (minute fs <? 60)
  && (0 <=? second fs) && (second fs <? 60).

(** Days since 1970-01-01 in the proleptic Gregorian calendar
    ([LocalDate.toEpochDay]; its divisions truncate). *)
Definition epoch_day (y m d : Z) : Z :=
  365 * y
  + (if 0 <=? y then (y + 3) / 4 - (y + 99) / 100 + (y + 399) / 400
     else - (Z.quot y (-4) - Z.quot y (-100) + Z.quot y (-400)))
  + (367 * m - 362) / 12 + (d - 1)
  - (if 2 <? m then (if is_leap y then 1 else 2) else 0)
  - 719528.

(** Seconds from 1970-01-01T00:00:00 to a local date and time, both read in
    the same zone. *)
Definition epoch_second (fs : fields) : Z :=
  epoch_day (year fs) (month fs) (day fs) * 86400
  + hour fs * 3600 + minute fs * 60 + second fs.

Definition parse (fmt : list item) (s : string) : option fields :=
  match parse_items fmt (list_ascii_of_string s) default_fields with
  | Some fs => if valid fs then Some fs else None
  | None => None
  end.

(** What a session fixes about timestamps and [etl.py] does not set: the
    rules of its time zone, and the parser of the engine's earlier versions,
    which the engine asks about a text the pattern rejects.  [zone_offset]
    gives, for a local date and time counted in seconds from
    1970-01-01T00:00:00, the seconds east of Greenwich that the zone is at
    then; where the rules leave a gap or an overlap it is the offset before
    the transition.  [overflow_error] is what the engine raises for a date
    and time whose microseconds do not fit 64 bits, and nothing for the
    versions of the engine that give null there. *)
Class Session : Type := mkSession
  { zone_offset : Z -> Z;
    zone_offset_range : forall local, -64800 <= zone_offset local <= 64800;
    legacy_reads : list item -> string -> bool;
    upgrade_error : string -> Py.exn;
    overflow_error : option Py.exn }.

(** The instant of a local date and time in the session's zone, in seconds
    since 1970-01-01T00:00:00Z. *)
Definition instant `{Session} (fs : fields) : Z :=
  epoch_second fs - zone_offset (epoch_second fs).

(** [to_timestamp(col, fmt)].  A null cell gives null.  A text the pattern
    accepts gives its instant, when the count of microseconds fits 64 bits.
    A text the pattern rejects gives null, unless the earlier parser reads
    it: then the engine raises, to tell that the upgrade changed the
    result. *)
Definition to_timestamp `{Session} (c : option string) (fmt : list item) :
    Py.outcome (option timestamp) :=
  match c with
  | None => Py.Return None
  | Some s =>
      match parse fmt s with
      | Some fs =>
          let us := instant fs * 1000000 in
          if (- 2 ^ 63 <=? us) && (us <? 2 ^ 63) then Py.Return (Some us)
          else
            match overflow_error with
            | Some e => Py.Raise e
            | None => Py.Return None
            end
      | None =>
          if legacy_reads fmt s then Py.Raise (upgrade_error s)
          else Py.Return None
      end
  end.

(** [unix_timestamp(col)] on a timestamp column: the microseconds divided
    by 1000000 as 64-bit integers, which truncates. *)
Definition unix_timestamp (t : option timestamp) : option Z :=
  match t with
  | Some us => Some (Z.quot us 1000000)
  | None => None
  end.

(** The text the pattern prints for given fields ([date_format]) when the
    year has four digits. *)
Definition digit_char (d : Z) : ascii := ascii_of_nat (Z.to_nat (48 + d)).

Definition two (v : Z) : list ascii :=
  [digit_char (v / 10); digit_char (v mod 10)].

Definition four (v : Z) : list ascii :=
  [digit_char (v / 1000); digit_char (v / 100 mod 10);
   digit_char (v / 10 mod 10); digit_char (v mod 10)].

Definition print (fs : fields) : string :=
  string_of_list_ascii
    (four (year fs) ++ "-"%char :: two (month fs) ++ "-"%char :: two (day fs)
     ++ "T"%char :: two (hour fs) ++ ":"%char :: two (minute fs)
     ++ ":"%char :: two (second fs)).

End Datetime.

(** ** Tables *)

(** Every column of every schema in [etl.py] is nullable. *)

Module Log.
Record row := mk
  { logId : option string;
    expId : option Sql.int;
    metricId : option Sql.int;
    valid : option bool;
    createdAt : option string;
    ingestedAt : option string;
    step : option Sql.int;
    value : option Sql.float32 }.

Definition map_valid (f : option bool -> option bool) (r : row) : row :=
  mk (logId r) (expId r) (metricId r) (f (valid r)) (createdAt r)
     (ingestedAt r) (step r) (value r).
End Log.

Module Experiment.
Record row := mk { expId : option Sql.int; expName : option string }.
End Experiment.

Module Metric.
Record row := mk { metricId : option Sql.int; metricName : option string }.
End Metric.

(** The columns [join_tables] selects, in its order. *)
Module Joined.
Record row := mk
  { logId : option string;
    expId : option Sql.int;
    expName : option string;
    metricId : option Sql.int;
    metricName : option string;
    valid : option bool;
    createdAt : option string;
    ingestedAt : option string;
    step : option Sql.int;
    value : option Sql.float32 }.

Definition map_valid (f : option bool -> option bool) (r : row) : row :=
  mk (logId r) (expId r) (expName r) (metricId r) (metricName r)
     (f (valid r)) (createdAt r) (ingestedAt r) (step r) (value r).
End Joined.

(** What [filter_late_logs] and [calculate_experiment_final_scores] read of
    their argument: the columns they name.  Any table with those columns is
    an argument. *)
Class TimeColumns (R : Type) :=
  { createdAt_col : R -> option string;
    ingestedAt_col : R -> option string }.

Class ScoreColumns (R : Type) :=
  { expId_col : R -> option Sql.int;
    metricId_col : R -> option Sql.int;
    value_col : R -> option Sql.float32 }.

(** A row after the three [withColumn] calls of [filter_late_logs]: the
    columns it had, and the three added ones. *)
Module Late.
Record row (R : Type) := mk
  { base : R;
    created_at_ts : option Datetime.timestamp;
    ingested_at_ts : option Datetime.timestamp;
    time_diff_hours : option Sql.double }.
Arguments mk {R}.
Arguments base {R}.
Arguments created_at_ts {R}.
Arguments ingested_at_ts {R}.
Arguments time_diff_hours {R}.

Definition map_base {R S : Type} (g : R -> S) (r : row R) : row S :=
  mk (g (base r)) (created_at_ts r) (ingested_at_ts r) (time_diff_hours r).
End Late.

Module Score.
Record row := mk
  { expId : option Sql.int;
    metricId : option Sql.int;
    maxValue : option Sql.float32;
    minValue : option Sql.float32 }.

Definition key (r : row) : Sql.key := (expId r, metricId r).

(** The cells of a row under their column names, in column order. *)
Definition cells (r : row) : list (string * Sql.cell) :=
  [ ("expId"%string, Sql.IntCell (expId r));
    ("metricId"%string, Sql.IntCell (metricId r));
    ("maxValue"%string, Sql.FloatCell (maxValue r));
    ("minValue"%string, Sql.FloatCell (minValue r)) ].
End Score.

#[export] Instance Joined_TimeColumns : TimeColumns Joined.row :=
  {| createdAt_col := Joined.createdAt; ingestedAt_col := Joined.ingestedAt |}.

#[export] Instance Joined_ScoreColumns : ScoreColumns Joined.row :=
  {| expId_col := Joined.expId;
     metricId_col := Joined.metricId;
     value_col := Joined.value |}.

#[export] Instance Late_ScoreColumns (R : Type) `{ScoreColumns R} :
    ScoreColumns (Late.row R) :=
  {| expId_col := fun r => expId_col (Late.base r);
     metricId_col := fun r => metricId_col (Late.base r);
     value_col := fun r => value_col (Late.base r) |}.

(** What [save] reads of its argument: the column it partitions by. *)
Class MetricIdColumn (R : Type) :=
  { metricId_of : R -> option Sql.int }.

#[export] Instance Score_MetricIdColumn : MetricIdColumn Score.row :=
  {| metricId_of := Score.metricId |}.

(** ** The functions of [app/etl.py] *)

Module Etl.

Section Engine.
(** The engine behind [SparkSession.builder]: its state, its session
    handles, and what [getOrCreate] does for a master URL and an
    application name. *)
Variable Engine : Type.
Variable SparkSession : Type.
Variable getOrCreate :
  string -> string -> Engine -> Py.outcome SparkSession * Engine.

Definition get_spark (master app_name : string) :
    Py.M Engine SparkSession :=
  Py.try_except_Exception
    (Py.bind (Py.call (getOrCreate master app_name))
       (fun spark => Py.ret spark))
    (fun e =>
       Py.bind
         (Py.print ("Error initializing Spark session: " ++ Py.str e)%string)
         (fun _ => Py.raise e)).

(** The rows [load_metrics] hands to [createDataFrame]. *)
Definition metrics : list Metric.row :=
  [ Metric.mk (Some 0) (Some "Loss"%string);
    Metric.mk (Some 1) (Some "Accuracy"%string) ].

Definition load_metrics : Py.M Engine (list Metric.row) :=
  Py.bind (get_spark "local[1]" "ML Logs Transformer")
    (fun _ => Py.ret metrics).
End Engine.

(** [select] of the ten columns out of a row of the double join. *)
Definition select_joined (r : Log.row * Experiment.row * Metric.row) :
    Joined.row :=
  let '(l, e, m) := r in
  Joined.mk (Log.logId l) (Log.expId l) (Experiment.expName e)
    (Log.metricId l) (Metric.metricName m) (Log.valid l) (Log.createdAt l)
    (Log.ingestedAt l) (Log.step l) (Log.value l).

Definition join_tables (logs : list Log.row)
    (experiments : list Experiment.row) (metrics : list Metric.row) :
    list Joined.row :=
  let logs_experiments :=
    Sql.inner_join Log.expId Experiment.expId logs experiments in
  let joined_tables :=
    Sql.inner_join (fun le => Log.metricId (fst le)) Metric.metricId
      logs_experiments metrics in
  map select_joined joined_tables.

(** The three columns [filter_late_logs] adds, computed for a row: the two
    timestamps, then the hours between them.  Reading a text can raise. *)
Definition with_time_diff `{Datetime.Session} {R : Type} `{TimeColumns R}
    (r : R) : Py.outcome (Late.row R) :=
  Py.and_then (Datetime.to_timestamp (createdAt_col r) Datetime.pattern)
    (fun created_at_ts =>
  Py.and_then (Datetime.to_timestamp (ingestedAt_col r) Datetime.pattern)
    (fun ingested_at_ts =>
  let time_diff_col :=
    Sql.divide
      (Sql.long_sub (Datetime.unix_timestamp ingested_at_ts)
                    (Datetime.unix_timestamp created_at_ts))
      (Some 3600) in
  Py.Return (Late.mk r created_at_ts ingested_at_ts time_diff_col))).

(** The table [filter_late_logs] returns, as an action gets it: its rows, or
    the exception that a text of the table made the engine raise.  [hours] is
    a Python [int]; the comparison casts it to double. *)
Definition filter_late_logs `{Datetime.Session} {R : Type} `{TimeColumns R}
    (data : list R) (hours : Z) : Py.outcome (list (Late.row R)) :=
  Py.and_then (Py.for_each with_time_diff data)
    (fun data_with_time_diff =>
  Py.Return
    (filter
       (fun r =>
          Sql.is_true
            (Sql.gt (Late.time_diff_hours r) (Some (Sql.double_of_Z hours))))
       data_with_time_diff)).

(** The rows of a table that [groupBy("expId", "metricId")] puts in the group
    of a key. *)
Definition group_rows {R : Type} `{ScoreColumns R} (data : list R)
    (k : Sql.key) : list R :=
  filter (fun r => Sql.key_eqb (expId_col r, metricId_col r) k) data.

Definition calculate_experiment_final_scores {R : Type} `{ScoreColumns R}
    (data : list R) : list Score.row :=
  map
    (fun g : Sql.key * list R =>
       let (k, rows) := g in
       Score.mk (fst k) (snd k)
         (Sql.max (map value_col rows)) (Sql.min (map value_col rows)))
    (Sql.groupBy (fun r => (expId_col r, metricId_col r)) data).

Section Readers.
(** The engine's readers: what [spark.read.json(path, schema)] and
    [spark.read.csv(path, schema, header)] answer for a session. *)
Variable Engine : Type.
Variable SparkSession : Type.
Variable getOrCreate :
  string -> string -> Engine -> Py.outcome SparkSession * Engine.
Variable read_json :
  SparkSession -> string -> Sql.schema ->
  Engine -> Py.outcome (list Log.row) * Engine.
Variable read_csv :
  SparkSession -> string -> Sql.schema -> bool ->
  Engine -> Py.outcome (list Experiment.row) * Engine.

Definition logs_schema : Sql.schema :=
  [ ("logId"%string, Sql.StringType);
    ("expId"%string, Sql.IntegerType);
    ("metricId"%string, Sql.IntegerType);
    ("valid"%string, Sql.BooleanType);
    ("createdAt"%string, Sql.StringType);
    ("ingestedAt"%string, Sql.StringType);
    ("step"%string, Sql.IntegerType);
    ("value"%string, Sql.FloatType) ].

Definition load_logs (logs_path : string) : Py.M Engine (list Log.row) :=
  Py.bind
    (get_spark Engine SparkSession getOrCreate "local[1]" "ML Logs Transformer")
    (fun spark => Py.call (read_json spark logs_path logs_schema)).

Definition experiments_schema : Sql.schema :=
  [ ("expId"%string, Sql.IntegerType); ("expName"%string, Sql.StringType) ].

Definition load_experiments (experiments_path : string) :
    Py.M Engine (list Experiment.row) :=
  Py.bind
    (get_spark Engine SparkSession getOrCreate "local[1]" "ML Logs Transformer")
    (fun spark =>
       Py.call (read_csv spark experiments_path experiments_schema true)).
End Readers.

Section Writer.
(** The engine's writer: what [write.parquet(path)] does with the
    directories [partitionBy] has laid out. *)
Variable Engine : Type.
Variable R : Type.
Context `{MetricIdColumn R}.
Variable parquet :
  string -> list (string * list R) -> Engine -> Py.outcome unit * Engine.

Definition save (data : list R) (output_path : string) : Py.M Engine unit :=
  Py.call (parquet output_path (Sql.partitionBy "metricId" metricId_of data)).
End Writer.

(** The schema [load_metrics] gives [createDataFrame]. *)
Definition metrics_schema : Sql.schema :=
  [ ("metricId"%string, Sql.IntegerType);
    ("metricName"%string, Sql.StringType) ].

(** The column names and types of the table each stage returns, from those
    of its arguments: the same calls, read on schemas. *)
Definition join_tables_schema (logs experiments metrics : Sql.schema) :
    option Sql.schema :=
  match Sql.join_schema "expId" logs experiments with
  | Some logs_experiments =>
      match Sql.join_schema "metricId" logs_experiments metrics with
      | Some joined_tables =>
          Sql.select_schema
            [ "logId"; "expId"; "expName"; "metricId"; "metricName"; "valid";
              "createdAt"; "ingestedAt"; "step"; "value" ]%string
            joined_tables
      | None => None
      end
  | None => None
  end.

Definition filter_late_logs_schema (data : Sql.schema) : Sql.schema :=
  Sql.withColumn_schema "time_diff_hours" Sql.DoubleType
    (Sql.withColumn_schema "ingested_at_ts" Sql.TimestampType
       (Sql.withColumn_schema "created_at_ts" Sql.TimestampType data)).

Definition calculate_experiment_final_scores_schema (data : Sql.schema) :
    option Sql.schema :=
  Sql.agg_schema [ "expId"; "metricId" ]%string
    [ (Sql.Max, "value", "maxValue"); (Sql.Min, "value", "minValue") ]%string
    data.

End Etl.

(** ** Vocabulary for the cast of an integer to a double *)

Module Rounding.

(** Where [a] lies between two consecutive multiples of [2 ^ k]. *)
Definition location_of (a k : Z) : location :=
  let r := a mod 2 ^ k in
  if r =? 0 then loc_Exact else loc_Inexact (2 * r ?= 2 ^ k).

(** [a] in units of [2 ^ k], rounded to nearest, ties to even. *)
Definition round_quotient (a k : Z) : Z :=
  round_nearest_even (a / 2 ^ k) (location_of a k).

(** Exponent and 53-bit mantissa of the double nearest to a positive
    integer. *)
Definition normal (p : positive) : Z * Z :=
  let d := Z.pos (digits2_pos p) in
  if d <=? 53 then (d - 53, Z.pos p * 2 ^ (53 - d))
  else
    let k := d - 53 in
    let m := round_quotient (Z.pos p) k in
    if m <? 2 ^ 53 then (k, m) else (k + 1, 2 ^ 52).

(** The double of an exponent and a mantissa: finite up to the largest
    exponent, infinite beyond. *)
Definition of_normal (s : bool) (em : Z * Z) : spec_float :=
  if fst em <=? 971 then S754_finite s (Z.to_pos (snd em)) (fst em)
  else S754_infinity s.

End Rounding.

(** ** Vocabulary of the statements *)

Module Spec.

(** An engine call that answered: it did not raise. *)
Definition answers {A : Type} (o : Py.outcome A) : Prop :=
  exists a, o = Py.Return a.

(** No text of the table makes [to_timestamp] raise. *)
Definition readable `{Datetime.Session} {R : Type} `{TimeColumns R}
    (data : list R) : Prop :=
  Forall
    (fun r =>
       answers (Datetime.to_timestamp (createdAt_col r) Datetime.pattern)
       /\ answers (Datetime.to_timestamp (ingestedAt_col r) Datetime.pattern))
    data.

(** A row of the input is among the rows the filter returned. *)
Definition retained {R : Type} (late : list (Late.row R)) (r : R) : Prop :=
  exists r', In r' late /\ Late.base r' = r.



(** How many of the keys of a table equal a key; a null key equals none. *)
Definition occurrences (k : option Sql.int) (keys : list (option Sql.int)) :
    nat :=
  match k with
  | Some _ => count_occ Sql.int_eq_dec keys k
  | None => 0
  end.

(** A property of what an evaluation returned, when it returned. *)
Definition when_returned {A : Type} (o : Py.outcome A) (P : A -> Prop) :
    Prop :=
  match o with
  | Py.Return a => P a
  | Py.Raise _ => True
  end.

Definition not_null {A : Type} (v : option A) : bool :=
  match v with Some _ => true | None => false end.

(** [m] is the greatest of the values that are not null, in the engine's
    order, and null when there is none. *)
Definition is_max_of (vs : list (option Sql.float32))
    (m : option Sql.float32) : Prop :=
  match m with
  | None => Forall (eq None) vs
  | Some x =>
      In (Some x) vs
      /\ Forall (fun v => match v with
                          | Some y => Sql.compareFloats y x <> Gt
                          | None => True
                          end) vs
  end.

Definition is_min_of (vs : list (option Sql.float32))
    (m : option Sql.float32) : Prop :=
  match m with
  | None => Forall (eq None) vs
  | Some x =>
      In (Some x) vs
      /\ Forall (fun v => match v with
                          | Some y => Sql.compareFloats x y <> Gt
                          | None => True
                          end) vs
  end.

(** The distinct (expId, metricId) pairs of a table. *)
Definition distinct_keys {R : Type} `{ScoreColumns R} (data : list R) :
    list Sql.key :=
  nodup Sql.key_eq_dec (map (fun r => (expId_col r, metricId_col r)) data).

(** The distinct pairs that have at least one value that is not null. *)
Definition keys_with_value {R : Type} `{ScoreColumns R} (data : list R) :
    list Sql.key :=
  distinct_keys (filter (fun r => not_null (value_col r)) data).

(** Two cells the engine cannot tell apart: both null, or values that
    compare equal (0.0 and -0.0 do, and so do two NaN). *)
Definition same_cell (a b : option Sql.float32) : Prop :=
  match a, b with
  | None, None => True
  | Some x, Some y => Sql.compareFloats x y = Eq
  | _, _ => False
  end.

End Spec.

(** ** Concrete tables used by the examples *)

Module Scenario.

Definition f32 (z : Z) : option Sql.float32 := Some (Sql.float32_of_Z z).

(** The two log rows of the end-to-end scenario; the fields the scenario
    leaves out are null. *)
Definition log_a : Log.row :=
  Log.mk (Some "a"%string) (Some 1) (Some 0) None
    (Some "2024-01-01T00:00:00"%string) (Some "2024-01-01T05:00:00"%string)
    None (f32 2).

Definition log_b : Log.row :=
  Log.mk (Some "b"%string) (Some 1) (Some 0) None
    (Some "2024-01-01T00:00:00"%string) (Some "2024-01-01T00:30:00"%string)
    None (f32 9).

Definition experiments : list Experiment.row :=
  [ Experiment.mk (Some 1) (Some "Exp1"%string) ].

(** An experiments table with the key 1 twice. *)
Definition experiments_twice : list Experiment.row :=
  [ Experiment.mk (Some 1) (Some "Exp1"%string);
    Experiment.mk (Some 1) (Some "Exp1 bis"%string) ].

(** A log row of an experiment and a metric that no table knows. *)
Definition log_orphan : Log.row :=
  Log.mk (Some "c"%string) (Some 7) (Some 0) (Some true)
    (Some "2024-01-01T00:00:00"%string) (Some "2024-01-01T05:00:00"%string)
    (Some 3) (f32 4).

(** A joined row that has only its grouping columns and its value. *)
Definition scored (e m : Z) (v : option Sql.float32) : Joined.row :=
  Joined.mk None (Some e) None (Some m) None None None None None v.

Definition group_3_1_5_null : list Joined.row :=
  [ scored 1 0 (f32 3); scored 1 0 (f32 1); scored 1 0 (f32 5);
    scored 1 0 None ].

(** One group whose values are all null, and one with a value. *)
Definition with_null_group : list Joined.row :=
  [ scored 1 0 None; scored 2 0 (f32 7); scored 1 0 None ].

(** A joined row with given timestamp texts. *)
Definition timed (created ingested : string) : Joined.row :=
  Joined.mk (Some "t"%string) (Some 1) (Some "Exp1"%string) (Some 0)
    (Some "Loss"%string) (Some false) (Some created) (Some ingested)
    (Some 1) (f32 1).

Definition lag_exactly_1h : Joined.row :=
  timed "2024-01-01T00:00:00" "2024-01-01T01:00:00".

Definition lag_1h_1s : Joined.row :=
  timed "2024-01-01T00:00:00" "2024-01-01T01:00:01".




(** A session in UTC whose earlier parser reads, of the texts used here, the
    one with the short month and day. *)
Definition upgrade (s : string) : Py.exn :=
  Py.mkExn true ("Fail to parse '" ++ s ++ "' in the new parser")%string.

Definition utc : Datetime.Session.
Proof.
  refine
    {| Datetime.zone_offset := fun _ => 0;
       Datetime.legacy_reads :=
         fun _ s => String.eqb s "2024-1-1T00:00:00";
       Datetime.upgrade_error := upgrade;
       Datetime.overflow_error := Some (Py.mkExn true "long overflow") |}.
  intros _. split; discriminate.
Defined.

(** An engine that cannot start at the first request and would at the
    second: its state counts the requests. *)
Definition cannot_start : Py.exn :=
  Py.mkExn true "Could not parse Master URL".

Definition flaky (master app_name : string) (requests : nat) :
    Py.outcome string * nat :=
  match requests with
  | O => (Py.Raise cannot_start, 1%nat)
  | S _ => (Py.Return "session"%string, S requests)
  end.

End Scenario.

(** * Properties of the engine primitives *)

(** ** The order on floating-point values *)

Lemma compareDoubles_SFcompare x y :
  Sql.compareDoubles x y =
  match SFcompare x y with
  | Some c => c
  | None => match x, y with
            | S754_nan, S754_nan => Eq
            | S754_nan, _ => Gt
            | _, _ => Lt
            end
  end.
Proof.
  unfold Sql.compareDoubles, SFeqb, SFltb.
  destruct x as [sx|sx| |sx mx ex], y as [sy|sy| |sy my ey]; simpl; try reflexivity;
    try (destruct sx; reflexivity); try (destruct sy; reflexivity);
    try (destruct sx, sy; reflexivity).
  change (Pos.compare_cont Eq mx my) with (Pos.compare mx my).
  change (Pos.compare_cont Eq my mx) with (Pos.compare my mx).
  rewrite (Z.compare_antisym ex ey), (Pos.compare_antisym mx my).
  destruct sx, sy; try reflexivity;
    destruct (ex ?= ey); simpl; try reflexivity;
    destruct (mx ?= my)%positive; reflexivity.
Qed.

Ltac cmp_cases :=
  repeat match goal with
  | |- context [Pos.compare_cont Eq ?a ?b] =>
      change (Pos.compare_cont Eq a b) with (Pos.compare a b)
  end;
  repeat match goal with
  | |- context [Z.compare ?a ?b] => destruct (Z.compare_spec a b)
  | |- context [Pos.compare ?a ?b] => destruct (Pos.compare_spec a b)
  end;
  simpl; intros; subst; try congruence; try lia.

Lemma compareDoubles_refl x : Sql.compareDoubles x x = Eq.
Proof.
  rewrite compareDoubles_SFcompare.
  destruct x as [s|s| |s m e]; simpl; try reflexivity; destruct s; try reflexivity;
    rewrite Z.compare_refl; change (Pos.compare_cont Eq m m) with (Pos.compare m m);
    rewrite Pos.compare_refl; reflexivity.
Qed.

Lemma compareDoubles_antisym x y :
  Sql.compareDoubles y x = CompOpp (Sql.compareDoubles x y).
Proof.
  rewrite !compareDoubles_SFcompare.
  destruct x as [sx|sx| |sx mx ex], y as [sy|sy| |sy my ey]; simpl;
    try reflexivity; try (destruct sx; reflexivity);
    try (destruct sy; reflexivity); try (destruct sx, sy; reflexivity).
  destruct sx, sy; try reflexivity; cmp_cases.
Qed.

Lemma compareDoubles_gt_le_trans d h2 h1 :
  Sql.compareDoubles d h2 = Gt -> Sql.compareDoubles h1 h2 <> Gt ->
  Sql.compareDoubles d h1 = Gt.
Proof.
  rewrite !compareDoubles_SFcompare.
  destruct d as [sd|sd| |sd md ed], h2 as [s2|s2| |s2 m2 e2],
    h1 as [s1|s1| |s1 m1 e1]; simpl;
    try congruence;
    try (destruct sd; simpl; congruence);
    try (destruct s1; simpl; congruence);
    try (destruct s2; simpl; congruence);
    try (destruct sd, s1; simpl; congruence);
    try (destruct sd, s2; simpl; congruence);
    try (destruct s1, s2; simpl; congruence);
    try (destruct sd, s1, s2; simpl; congruence).
  all: destruct sd, s1, s2; simpl; try congruence; cmp_cases.
Qed.

Lemma compareDoubles_le_trans x y z :
  Sql.compareDoubles x y <> Gt -> Sql.compareDoubles y z <> Gt ->
  Sql.compareDoubles x z <> Gt.
Proof.
  intros Hxy Hyz Hxz. apply Hxy.
  apply compareDoubles_gt_le_trans with (h2 := z); assumption.
Qed.

Lemma compareDoubles_Lt_Gt x y :
  Sql.compareDoubles x y = Lt <-> Sql.compareDoubles y x = Gt.
Proof.
  rewrite (compareDoubles_antisym x y).
  destruct (Sql.compareDoubles x y); simpl; split; congruence.
Qed.

(** ** Joins *)

Lemma inner_join_app {A B : Type} (ka : A -> option Z) (kb : B -> option Z)
    (l1 l2 : list A) (r : list B) :
  Sql.inner_join ka kb (l1 ++ l2) r
  = Sql.inner_join ka kb l1 r ++ Sql.inner_join ka kb l2 r.
Proof. unfold Sql.inner_join. apply flat_map_app. Qed.

Lemma join_tables_app logs1 logs2 experiments metrics :
  Etl.join_tables (logs1 ++ logs2) experiments metrics
  = Etl.join_tables logs1 experiments metrics
    ++ Etl.join_tables logs2 experiments metrics.
Proof.
  unfold Etl.join_tables. rewrite !inner_join_app. apply map_app.
Qed.

Lemma join_tables_single l experiments metrics :
  Etl.join_tables [l] experiments metrics
  = flat_map
      (fun e =>
         map (fun m => Etl.select_joined (l, e, m))
             (Sql.matching Metric.metricId (Log.metricId l) metrics))
      (Sql.matching Experiment.expId (Log.expId l) experiments).
Proof.
  unfold Etl.join_tables, Sql.inner_join, Sql.matching. simpl.
  rewrite app_nil_r.
  induction (filter _ experiments) as [|e es IH]; simpl; [reflexivity|].
  rewrite map_app, IH, map_map. reflexivity.
Qed.

Lemma length_flat_map_const {A B : Type} (f : A -> list B) (n : nat) (l : list A) :
  (forall a, List.length (f a) = n) -> List.length (flat_map f l) = (List.length l * n)%nat.
Proof.
  intros Hf. induction l as [|a l IH]; simpl; [reflexivity|].
  rewrite length_app, Hf, IH. reflexivity.
Qed.

Lemma join_tables_single_length l experiments metrics :
  List.length (Etl.join_tables [l] experiments metrics)
  = (List.length (Sql.matching Experiment.expId (Log.expId l) experiments)
     * List.length (Sql.matching Metric.metricId (Log.metricId l) metrics))%nat.
Proof.
  rewrite join_tables_single.
  apply length_flat_map_const. intros e. apply length_map.
Qed.

Lemma matching_In {B : Type} (kb : B -> option Sql.int) (k : option Sql.int)
    (right : list B) (b : B) :
  In b (Sql.matching kb k right) <->
  In b right /\ exists x, k = Some x /\ kb b = Some x.
Proof.
  unfold Sql.matching. rewrite filter_In. split.
  - intros [Hb Hm]. split; [exact Hb|].
    destruct k as [x|], (kb b) as [y|]; simpl in Hm; try discriminate.
    destruct (Z.eqb_spec x y) as [->|]; [|discriminate]. exists y. auto.
  - intros [Hb [x [-> Hx]]]. split; [exact Hb|]. rewrite Hx. simpl.
    rewrite Z.eqb_refl. reflexivity.
Qed.

Lemma join_tables_In logs experiments metrics (j : Joined.row) :
  In j (Etl.join_tables logs experiments metrics) <->
  exists l e m,
    In l logs /\ In e experiments /\ In m metrics
    /\ (exists k, Log.expId l = Some k /\ Experiment.expId e = Some k)
    /\ (exists k, Log.metricId l = Some k /\ Metric.metricId m = Some k)
    /\ j = Etl.select_joined (l, e, m).
Proof.
  unfold Etl.join_tables, Sql.inner_join. rewrite in_map_iff. split.
  - intros [[[l e] m] [<- Hin]].
    apply in_flat_map in Hin. destruct Hin as [[l' e'] [Hle Hm]].
    apply in_map_iff in Hm. destruct Hm as [m' [[= -> -> ->] Hm]].
    apply matching_In in Hm. destruct Hm as [Hm Hkm].
    apply in_flat_map in Hle. destruct Hle as [l' [Hl He]].
    apply in_map_iff in He. destruct He as [e' [[= -> ->] He]].
    apply matching_In in He. destruct He as [He Hke].
    exists l, e, m. cbn [fst] in Hkm. auto 10.
  - intros [l [e [m [Hl [He [Hm [Hke [Hkm ->]]]]]]]].
    exists (l, e, m). split; [reflexivity|].
    apply in_flat_map. exists (l, e). split.
    + apply in_flat_map. exists l. split; [exact Hl|].
      apply in_map. apply matching_In. auto.
    + apply in_map. apply matching_In. cbn [fst]. auto.
Qed.

Lemma matching_occurrences {B : Type} (kb : B -> option Sql.int)
    (k : option Sql.int) (right : list B) :
  List.length (Sql.matching kb k right) = Spec.occurrences k (map kb right).
Proof.
  unfold Sql.matching, Spec.occurrences.
  induction right as [|b right IH]; [destruct k; reflexivity|].
  cbn [filter map]. destruct k as [x|].
  - cbn [count_occ]. destruct (kb b) as [y|] eqn:Hb.
    + destruct (Sql.int_eq_dec (Some y) (Some x)) as [E|Hne].
      * assert (y = x) by congruence. subst y.
        cbn [Sql.eq_int Sql.is_true]. rewrite Z.eqb_refl.
        cbn [List.length]. f_equal. exact IH.
      * cbn [Sql.eq_int Sql.is_true].
        destruct (Z.eqb_spec x y) as [->|_]; [congruence|exact IH].
    + destruct (Sql.int_eq_dec None (Some x)) as [E|_];
        [discriminate|exact IH].
  - destruct (kb b); exact IH.
Qed.

Lemma matching_absent {B : Type} (kb : B -> option Sql.int)
    (k : option Sql.int) (right : list B) :
  ~ In k (map kb right) -> Sql.matching kb k right = [].
Proof.
  intros Hk. destruct (Sql.matching kb k right) as [|b bs] eqn:E;
    [reflexivity|exfalso].
  assert (Hb : In b (Sql.matching kb k right)) by (rewrite E; left; reflexivity).
  apply matching_In in Hb. destruct Hb as [Hb [x [-> Hx]]].
  apply Hk. rewrite <- Hx. apply in_map. exact Hb.
Qed.

Lemma matching_app {B : Type} (kb : B -> option Sql.int)
    (k : option Sql.int) (r1 r2 : list B) :
  Sql.matching kb k (r1 ++ r2) = Sql.matching kb k r1 ++ Sql.matching kb k r2.
Proof. unfold Sql.matching. apply filter_app. Qed.

Lemma matching_cons_same {B : Type} (kb : B -> option Sql.int)
    (k : option Sql.int) (b : B) (right : list B) :
  k <> None -> kb b = k ->
  Sql.matching kb k (b :: right) = b :: Sql.matching kb k right.
Proof.
  intros Hk Hb. unfold Sql.matching. cbn [filter]. rewrite Hb.
  destruct k as [x|]; [|congruence]. cbn. rewrite Z.eqb_refl. reflexivity.
Qed.

(** ** Aggregation *)

Lemma fold_greatest_None_r vs acc :
  fold_left Sql.greatest (filter (fun v => match v with Some _ => true | None => false end) vs) acc
  = fold_left Sql.greatest vs acc.
Proof.
  revert acc. induction vs as [|v vs IH]; intros acc; simpl; [reflexivity|].
  destruct v as [x|]; simpl.
  - apply IH.
  - rewrite IH. destruct acc; reflexivity.
Qed.

Lemma fold_least_None_r vs acc :
  fold_left Sql.least (filter (fun v => match v with Some _ => true | None => false end) vs) acc
  = fold_left Sql.least vs acc.
Proof.
  revert acc. induction vs as [|v vs IH]; intros acc; simpl; [reflexivity|].
  destruct v as [x|]; simpl.
  - apply IH.
  - rewrite IH. destruct acc; reflexivity.
Qed.

Lemma fold_greatest_None vs acc :
  fold_left Sql.greatest vs acc = None <->
  acc = None /\ forall v, In v vs -> v = None.
Proof.
  revert acc. induction vs as [|v vs IH]; intros acc; simpl.
  - split; [intros ->; split; [reflexivity|intros ? []] | intros [-> _]; reflexivity].
  - rewrite IH. split.
    + intros [Hg Hall]. destruct acc as [a|], v as [b|]; simpl in Hg;
        try discriminate.
      * destruct (Sql.compareFloats b a); discriminate.
      * split; [reflexivity|]. intros v [<-|Hv]; [reflexivity|auto].
    + intros [-> Hall]. rewrite (Hall v (or_introl eq_refl)).
      split; [reflexivity|auto].
Qed.

Lemma fold_least_None vs acc :
  fold_left Sql.least vs acc = None <->
  acc = None /\ forall v, In v vs -> v = None.
Proof.
  revert acc. induction vs as [|v vs IH]; intros acc; simpl.
  - split; [intros ->; split; [reflexivity|intros ? []] | intros [-> _]; reflexivity].
  - rewrite IH. split.
    + intros [Hg Hall]. destruct acc as [a|], v as [b|]; simpl in Hg;
        try discriminate.
      * destruct (Sql.compareFloats b a); discriminate.
      * split; [reflexivity|]. intros v [<-|Hv]; [reflexivity|auto].
    + intros [-> Hall]. rewrite (Hall v (or_introl eq_refl)).
      split; [reflexivity|auto].
Qed.

Lemma fold_greatest_Some vs acc x :
  fold_left Sql.greatest vs acc = Some x ->
  (acc = Some x \/ In (Some x) vs)
  /\ forall y, acc = Some y \/ In (Some y) vs -> Sql.compareFloats y x <> Gt.
Proof.
  revert acc. induction vs as [|v vs IH]; intros acc H; simpl in *.
  - subst acc. split; [left; reflexivity|].
    intros y [[= ->]|[]]. unfold Sql.compareFloats.
    rewrite compareDoubles_refl. discriminate.
  - destruct (IH _ H) as [Hin Hub]. clear IH H. split.
    + destruct Hin as [Hacc|Hin]; [|auto].
      destruct acc as [a|], v as [b|]; simpl in Hacc; auto.
      destruct (Sql.compareFloats b a); auto.
    + intros y [Hy|[Hy|Hy]]; [| |auto].
      * subst acc. destruct v as [b|]; simpl in Hub; [|auto].
        destruct (Sql.compareFloats b y) eqn:Hc; auto.
        apply compareDoubles_le_trans with (y := b); [|auto].
        apply compareDoubles_Lt_Gt in Hc. unfold Sql.compareFloats in *.
        congruence.
      * subst v. destruct acc as [a|]; simpl in Hub; [|auto].
        destruct (Sql.compareFloats y a) eqn:Hc; auto;
          (apply compareDoubles_le_trans with (y := a); [|auto]);
          unfold Sql.compareFloats in *; congruence.
Qed.

Lemma fold_least_Some vs acc x :
  fold_left Sql.least vs acc = Some x ->
  (acc = Some x \/ In (Some x) vs)
  /\ forall y, acc = Some y \/ In (Some y) vs -> Sql.compareFloats x y <> Gt.
Proof.
  revert acc. induction vs as [|v vs IH]; intros acc H; simpl in *.
  - subst acc. split; [left; reflexivity|].
    intros y [[= ->]|[]]. unfold Sql.compareFloats.
    rewrite compareDoubles_refl. discriminate.
  - destruct (IH _ H) as [Hin Hlb]. clear IH H. split.
    + destruct Hin as [Hacc|Hin]; [|auto].
      destruct acc as [a|], v as [b|]; simpl in Hacc; auto.
      destruct (Sql.compareFloats b a); auto.
    + intros y [Hy|[Hy|Hy]]; [| |auto].
      * subst acc. destruct v as [b|]; simpl in Hlb; [|auto].
        destruct (Sql.compareFloats b y) eqn:Hc; auto.
        apply compareDoubles_le_trans with (y := b); [auto|].
        unfold Sql.compareFloats in *. congruence.
      * subst v. destruct acc as [a|]; simpl in Hlb; [|auto].
        destruct (Sql.compareFloats y a) eqn:Hc; auto;
          (apply compareDoubles_le_trans with (y := a); [auto|]);
          unfold Sql.compareFloats in *;
          rewrite (compareDoubles_antisym y a), Hc; discriminate.
Qed.

Lemma groupBy_keys {R : Type} (kf : R -> Sql.key) (data : list R) :
  map fst (Sql.groupBy kf data) = nodup Sql.key_eq_dec (map kf data).
Proof.
  unfold Sql.groupBy. rewrite map_map. simpl. apply map_id.
Qed.

Lemma scores_keys {R : Type} `{ScoreColumns R} (data : list R) :
  map Score.key (Etl.calculate_experiment_final_scores data)
  = nodup Sql.key_eq_dec (map (fun r => (expId_col r, metricId_col r)) data).
Proof.
  unfold Etl.calculate_experiment_final_scores.
  rewrite <- groupBy_keys, !map_map. apply map_ext.
  intros [[e m] rows]. reflexivity.
Qed.

Lemma scores_In {R : Type} `{ScoreColumns R} (data : list R) (s : Score.row) :
  In s (Etl.calculate_experiment_final_scores data) <->
  In (Score.key s) (map (fun r => (expId_col r, metricId_col r)) data)
  /\ Score.maxValue s = Sql.max (map value_col (Etl.group_rows data (Score.key s)))
  /\ Score.minValue s = Sql.min (map value_col (Etl.group_rows data (Score.key s))).
Proof.
  unfold Etl.calculate_experiment_final_scores, Sql.groupBy, Etl.group_rows.
  rewrite map_map, in_map_iff. split.
  - intros [k [<- Hk]]. apply nodup_In in Hk. destruct k as [e m]. simpl.
    auto.
  - intros [Hk [Hmax Hmin]]. exists (Score.key s). split.
    + destruct s as [e m mx mn]. unfold Score.key in *. simpl in *.
      congruence.
    + apply nodup_In. exact Hk.
Qed.

(** ** The timestamp pattern *)




Lemma quotient_digit v k :
  0 <= v -> 0 <= v / k mod 10 <= 9.
Proof.
  intros _. pose proof (Z.mod_pos_bound (v / k) 10 ltac:(lia)). lia.
Qed.









(** ** [to_timestamp] *)

Section Timestamps.
Context `{Datetime.Session}.

(** A timestamp the engine gives fits 64 bits. *)
Lemma to_timestamp_range c fmt t :
  Datetime.to_timestamp c fmt = Py.Return (Some t) ->
  - 2 ^ 63 <= t < 2 ^ 63.
Proof.
  unfold Datetime.to_timestamp. destruct c as [s|]; [|discriminate].
  destruct (Datetime.parse fmt s) as [fs|].
  - cbv zeta.
    destruct ((- 2 ^ 63 <=? Datetime.instant fs * 1000000)
              && (Datetime.instant fs * 1000000 <? 2 ^ 63)) eqn:Hr;
      [|destruct Datetime.overflow_error; discriminate].
    apply andb_true_iff in Hr. destruct Hr as [H1 H2].
    apply Z.leb_le in H1. apply Z.ltb_lt in H2.
    intros E. assert (t = Datetime.instant fs * 1000000) by congruence.
    subst t. split; assumption.
  - destruct (Datetime.legacy_reads fmt s); discriminate.
Qed.

(** A text that parses is read as its instant, when that fits. *)
Lemma to_timestamp_parsed s fmt fs :
  Datetime.parse fmt s = Some fs ->
  - 9223372036854 <= Datetime.instant fs <= 9223372036854 ->
  Datetime.to_timestamp (Some s) fmt
  = Py.Return (Some (Datetime.instant fs * 1000000)).
Proof.
  intros Hp Hr. unfold Datetime.to_timestamp. rewrite Hp. cbv zeta.
  replace ((- 2 ^ 63 <=? Datetime.instant fs * 1000000)
           && (Datetime.instant fs * 1000000 <? 2 ^ 63)) with true;
    [reflexivity|].
  symmetry. apply andb_true_iff.
  change (2 ^ 63) with 9223372036854775808.
  split; [apply Z.leb_le|apply Z.ltb_lt]; lia.
Qed.




Lemma unix_timestamp_range t :
  - 2 ^ 63 <= t < 2 ^ 63 ->
  - 9223372036854 <= Z.quot t 1000000 <= 9223372036854.
Proof.
  change (2 ^ 63) with 9223372036854775808. intros Ht.
  pose proof (Z.quot_rem' t 1000000).
  pose proof (Z.rem_bound_abs t 1000000 ltac:(lia)).
  destruct (Z.le_ge_cases 0 t) as [Hs|Hs].
  - pose proof (Z.rem_nonneg t 1000000 ltac:(lia) Hs). lia.
  - pose proof (Z.rem_nonpos t 1000000 ltac:(lia) Hs). lia.
Qed.

End Timestamps.
(** ** Integers as doubles *)

Lemma digits2_pos_bounds p :
  2 ^ (Z.pos (digits2_pos p) - 1) <= Z.pos p < 2 ^ Z.pos (digits2_pos p).
Proof.
  induction p as [p IH|p IH|]; cbn [digits2_pos].
  - rewrite Pos2Z.inj_succ.
    replace (Z.succ (Z.pos (digits2_pos p)) - 1) with (Z.succ (Z.pos (digits2_pos p) - 1)) by lia.
    rewrite !Z.pow_succ_r by lia. lia.
  - rewrite Pos2Z.inj_succ.
    replace (Z.succ (Z.pos (digits2_pos p)) - 1) with (Z.succ (Z.pos (digits2_pos p) - 1)) by lia.
    rewrite !Z.pow_succ_r by lia. lia.
  - simpl. lia.
Qed.

Lemma digits2_pos_iter_xO p k :
  digits2_pos (Pos.iter xO p k) = (digits2_pos p + k)%positive.
Proof.
  induction k as [|k IH] using Pos.peano_ind.
  - simpl. rewrite Pos.add_1_r. reflexivity.
  - rewrite Pos.iter_succ. cbn [digits2_pos]. rewrite IH, Pos.add_succ_r. reflexivity.
Qed.

Lemma pos_iter_xO p k : Z.pos (Pos.iter xO p k) = Z.pos p * 2 ^ Z.pos k.
Proof.
  induction k as [|k IH] using Pos.peano_ind.
  - simpl. lia.
  - rewrite Pos.iter_succ, Pos2Z.inj_succ, Z.pow_succ_r by lia. rewrite Pos2Z.inj_xO, IH. lia.
Qed.

Lemma digits2_pos_le_53 p : Z.pos p < 2 ^ 53 -> Z.pos (digits2_pos p) <= 53.
Proof.
  intros Hp. pose proof (digits2_pos_bounds p) as [Hlo _].
  destruct (Z.le_gt_cases (Z.pos (digits2_pos p)) 53) as [|Hgt]; [assumption|].
  exfalso. assert (2 ^ 53 <= 2 ^ (Z.pos (digits2_pos p) - 1))
    by (apply Z.pow_le_mono_r; lia). lia.
Qed.

Lemma binary_round_aux_exact s m e :
  Z.pos (digits2_pos m) = 53 -> -1074 <= e <= 971 ->
  binary_round_aux Sql.prec64 Sql.emax64 s (Z.pos m) e loc_Exact
  = S754_finite s m e.
Proof.
  intros Hm He.
  unfold binary_round_aux, shr_fexp, fexp, emin, Sql.prec64, Sql.emax64.
  cbn [Zdigits2 shr_record_of_loc]. rewrite Hm.
  change IntDef.Z.max with Z.max.
  replace (Z.max (53 + e - 53) (3 - 1024 - 53) - e) with 0 by lia.
  cbn [shr shr_m loc_of_shr_record round_nearest_even Zdigits2 shr_record_of_loc].
  rewrite Hm.
  replace (Z.max (53 + e - 53) (3 - 1024 - 53) - e) with 0 by lia.
  cbn [shr shr_m].
  replace (e <=? 1024 - 53) with true by (symmetry; apply Z.leb_le; lia).
  reflexivity.
Qed.

Lemma binary_round_exact s p :
  Z.pos p < 2 ^ 53 ->
  exists m,
    binary_round Sql.prec64 Sql.emax64 s p 0
    = S754_finite s m (Z.pos (digits2_pos p) - 53)
    /\ Z.pos m = Z.pos p * 2 ^ (53 - Z.pos (digits2_pos p)).
Proof.
  intros Hp. pose proof (digits2_pos_le_53 p Hp) as Hd.
  unfold binary_round, shl_align, fexp, emin.
  change IntDef.Z.max with Z.max.
  unfold Sql.prec64 at 1 2 3 4, Sql.emax64 at 1 2.
  replace (Z.max (Z.pos (digits2_pos p) + 0 - 53) (3 - 1024 - 53))
    with (Z.pos (digits2_pos p) - 53) by lia.
  rewrite Z.sub_0_r.
  destruct (Z.pos (digits2_pos p) - 53) as [|k|k] eqn:Hk; [|lia|].
  - exists p. rewrite binary_round_aux_exact by lia.
    replace (53 - Z.pos (digits2_pos p)) with 0 by lia.
    split; [reflexivity|lia].
  - exists (Pos.iter xO p k).
    rewrite binary_round_aux_exact.
    + split; [reflexivity|]. rewrite pos_iter_xO. do 2 f_equal. lia.
    + rewrite digits2_pos_iter_xO. lia.
    + lia.
Qed.

Lemma compare_exact p1 p2 m1 m2 :
  Z.pos m1 = Z.pos p1 * 2 ^ (53 - Z.pos (digits2_pos p1)) ->
  Z.pos m2 = Z.pos p2 * 2 ^ (53 - Z.pos (digits2_pos p2)) ->
  match Z.pos (digits2_pos p1) - 53 ?= Z.pos (digits2_pos p2) - 53 with
  | Eq => Pos.compare_cont Eq m1 m2
  | Lt => Lt
  | Gt => Gt
  end = (p1 ?= p2)%positive.
Proof.
  intros H1 H2.
  pose proof (digits2_pos_bounds p1) as B1.
  pose proof (digits2_pos_bounds p2) as B2.
  change (Pos.compare_cont Eq m1 m2) with (Z.pos m1 ?= Z.pos m2).
  change (p1 ?= p2)%positive with (Z.pos p1 ?= Z.pos p2).
  destruct (Z.compare_spec (Z.pos (digits2_pos p1) - 53) (Z.pos (digits2_pos p2) - 53)) as [He|He|He].
  - assert (Hd : Z.pos (digits2_pos p1) = Z.pos (digits2_pos p2)) by lia.
    rewrite Hd in H1.
    assert (Hc : 0 < 2 ^ (53 - Z.pos (digits2_pos p2))).
    { destruct (Z.le_gt_cases (Z.pos (digits2_pos p2)) 53);
        [apply Z.pow_pos_nonneg; lia|].
      rewrite Z.pow_neg_r in H2 by lia. lia. }
    rewrite H1, H2.
    destruct (Z.compare_spec (Z.pos p1 * 2 ^ (53 - Z.pos (digits2_pos p2)))
                (Z.pos p2 * 2 ^ (53 - Z.pos (digits2_pos p2)))),
      (Z.compare_spec (Z.pos p1) (Z.pos p2)); try reflexivity; nia.
  - symmetry. apply Z.compare_lt_iff.
    assert (2 ^ Z.pos (digits2_pos p1) <= 2 ^ (Z.pos (digits2_pos p2) - 1))
      by (apply Z.pow_le_mono_r; lia). lia.
  - symmetry. apply Z.compare_gt_iff.
    assert (2 ^ Z.pos (digits2_pos p2) <= 2 ^ (Z.pos (digits2_pos p1) - 1))
      by (apply Z.pow_le_mono_r; lia). lia.
Qed.

(** On integers the cast represents exactly, the engine's order on doubles
    is the order of the integers. *)
Lemma double_of_Z_compare z1 z2 :
  Z.abs z1 < 2 ^ 53 -> Z.abs z2 < 2 ^ 53 ->
  Sql.compareDoubles (Sql.double_of_Z z1) (Sql.double_of_Z z2) = (z1 ?= z2).
Proof.
  intros H1 H2. rewrite compareDoubles_SFcompare.
  unfold Sql.double_of_Z, binary_normalize.
  destruct z1 as [|p1|p1], z2 as [|p2|p2];
    repeat match goal with
    | |- context [binary_round _ _ ?s ?p 0] =>
        let m := fresh "m" in
        let E := fresh "E" in
        let Hm := fresh "Hm" in
        destruct (binary_round_exact s p ltac:(lia)) as [m [E Hm]]; rewrite E; clear E
    end; try reflexivity.
  - cbn [SFcompare]. rewrite (compare_exact p1 p2 m m0) by assumption. reflexivity.
  - cbn [SFcompare].
    change (Z.neg p1 ?= Z.neg p2) with (CompOpp (p1 ?= p2)%positive).
    rewrite <- (compare_exact p1 p2 m m0) by assumption.
    destruct (Z.pos (digits2_pos p1) - 53 ?= Z.pos (digits2_pos p2) - 53);
      reflexivity.
Qed.

(** ** Rounding an integer to a double *)

Lemma iter_pos_invariant {A : Type} (f : A -> A) (P : Z -> A -> Prop) :
  (forall j x, 0 <= j -> P j x -> P (j + 1) (f x)) ->
  forall n j x, 0 <= j -> P j x -> P (j + Z.pos n) (iter_pos f n x).
Proof.
  intros Hstep. induction n as [n IH|n IH|]; intros j x Hj Hx; cbn [iter_pos].
  - replace (j + Z.pos n~1) with (j + 1 + Z.pos n + Z.pos n) by lia.
    apply IH; [lia|]. apply IH; [lia|]. apply Hstep; assumption.
  - replace (j + Z.pos n~0) with (j + Z.pos n + Z.pos n) by lia.
    apply IH; [lia|]. apply IH; assumption.
  - apply Hstep; assumption.
Qed.

Lemma mod_pow2_succ a j :
  0 <= j ->
  a mod 2 ^ (j + 1) = a mod 2 ^ j + 2 ^ j * ((a / 2 ^ j) mod 2).
Proof.
  intros Hj. rewrite Z.pow_add_r, Z.pow_1_r by lia.
  apply Z.rem_mul_r; [|lia]. apply Z.pow_nonzero; lia.
Qed.

Lemma div_pow2_succ a j :
  0 <= j -> a / 2 ^ (j + 1) = a / 2 ^ j / 2.
Proof.
  intros Hj. rewrite Z.pow_add_r, Z.pow_1_r by lia.
  rewrite Z.div_div; [reflexivity| |lia].
  apply Z.pow_nonzero; lia.
Qed.

Lemma shr_1_parts mrs :
  0 <= shr_m mrs ->
  shr_m mrs = 2 * shr_m (shr_1 mrs) + (if shr_r (shr_1 mrs) then 1 else 0)
  /\ shr_s (shr_1 mrs) = shr_r mrs || shr_s mrs.
Proof.
  destruct mrs as [m r s]. cbn [shr_m shr_r shr_s]. intros Hm.
  destruct m as [|[q|q|]|q]; cbn [shr_1 shr_m shr_r shr_s]; split;
    try reflexivity; lia.
Qed.

Lemma loc_of_shr_record_Exact mrs :
  loc_of_shr_record mrs = loc_Exact <-> shr_r mrs || shr_s mrs = false.
Proof.
  destruct mrs as [m [|] [|]]; simpl; split; intros H; congruence.
Qed.

Lemma shr_1_invariant a j mrs :
  0 <= a -> 0 <= j ->
  shr_m mrs = a / 2 ^ j
  /\ loc_of_shr_record mrs = Rounding.location_of a j ->
  shr_m (shr_1 mrs) = a / 2 ^ (j + 1)
  /\ loc_of_shr_record (shr_1 mrs) = Rounding.location_of a (j + 1).
Proof.
  intros Ha Hj [Hm Hloc].
  assert (Hp : 0 < 2 ^ j) by (apply Z.pow_pos_nonneg; lia).
  assert (Hq : 0 <= a / 2 ^ j) by (apply Z.div_pos; lia).
  pose proof (Z.mod_pos_bound a (2 ^ j) Hp) as Hr.
  destruct (shr_1_parts mrs ltac:(lia)) as [Hparts Hs].
  rewrite Hm in Hparts.
  set (m' := shr_m (shr_1 mrs)) in *.
  assert (Hdiv : a / 2 ^ j / 2 = m')
    by (symmetry; apply Z.div_unique with (if shr_r (shr_1 mrs) then 1 else 0);
        [destruct (shr_r (shr_1 mrs)); lia | lia]).
  assert (Hmod : (a / 2 ^ j) mod 2 = if shr_r (shr_1 mrs) then 1 else 0)
    by (symmetry; apply Z.mod_unique with m';
        [destruct (shr_r (shr_1 mrs)); lia | lia]).
  split; [rewrite div_pow2_succ by lia; symmetry; exact Hdiv|].
  unfold Rounding.location_of in *. cbv zeta in *.
  rewrite mod_pow2_succ, Hmod by lia.
  rewrite Z.pow_add_r, Z.pow_1_r by lia.
  assert (Hs' : shr_s (shr_1 mrs) = negb (a mod 2 ^ j =? 0)).
  { rewrite Hs. destruct (a mod 2 ^ j =? 0) eqn:Hz.
    - apply loc_of_shr_record_Exact. exact Hloc.
    - destruct (shr_r mrs || shr_s mrs) eqn:Hrs; [reflexivity|].
      apply loc_of_shr_record_Exact in Hrs. congruence. }
  clear Hs Hloc.
  destruct (shr_1 mrs) as [m1 r1 s1]. cbn [shr_r shr_s loc_of_shr_record] in *.
  subst s1.
  destruct (Z.eqb_spec (a mod 2 ^ j) 0) as [Hz|Hz]; cbn [negb];
    destruct r1.
  - rewrite Hz. replace (0 + 2 ^ j * 1 =? 0) with false
      by (symmetry; apply Z.eqb_neq; lia).
    replace (2 * (0 + 2 ^ j * 1) ?= 2 ^ j * 2) with Eq
      by (symmetry; apply Z.compare_eq_iff; lia).
    reflexivity.
  - rewrite Hz. replace (0 + 2 ^ j * 0 =? 0) with true
      by (symmetry; apply Z.eqb_eq; lia).
    reflexivity.
  - replace (a mod 2 ^ j + 2 ^ j * 1 =? 0) with false
      by (symmetry; apply Z.eqb_neq; lia).
    replace (2 * (a mod 2 ^ j + 2 ^ j * 1) ?= 2 ^ j * 2) with Gt
      by (symmetry; apply Z.compare_gt_iff; lia).
    reflexivity.
  - replace (a mod 2 ^ j + 2 ^ j * 0 =? 0) with false
      by (symmetry; apply Z.eqb_neq; lia).
    replace (2 * (a mod 2 ^ j + 2 ^ j * 0) ?= 2 ^ j * 2) with Lt
      by (symmetry; apply Z.compare_lt_iff; lia).
    reflexivity.
Qed.

Lemma shr_iter a k :
  0 <= a ->
  shr_m (iter_pos shr_1 k (Build_shr_record a false false)) = a / 2 ^ Z.pos k
  /\ loc_of_shr_record (iter_pos shr_1 k (Build_shr_record a false false))
     = Rounding.location_of a (Z.pos k).
Proof.
  intros Ha.
  apply (iter_pos_invariant shr_1
           (fun j x => shr_m x = a / 2 ^ j
                       /\ loc_of_shr_record x = Rounding.location_of a j)
           ltac:(intros j x Hj Hx; apply shr_1_invariant; assumption)
           k 0 (Build_shr_record a false false)); [lia|].
  unfold Rounding.location_of. cbn [shr_m loc_of_shr_record].
  rewrite Z.pow_0_r, Z.div_1_r, Z.mod_1_r. split; reflexivity.
Qed.

Lemma digits2_pos_unique m n :
  2 ^ (n - 1) <= Z.pos m < 2 ^ n -> Z.pos (digits2_pos m) = n.
Proof.
  intros [Hlo Hhi]. pose proof (digits2_pos_bounds m) as [Dlo Dhi].
  destruct (Z.lt_trichotomy (Z.pos (digits2_pos m)) n) as [Hlt|[Heq|Hgt]];
    [|exact Heq|].
  - exfalso.
    assert (2 ^ Z.pos (digits2_pos m) <= 2 ^ (n - 1))
      by (apply Z.pow_le_mono_r; lia). lia.
  - exfalso.
    destruct (Z.le_gt_cases 0 n) as [Hn|Hn].
    + assert (2 ^ n <= 2 ^ (Z.pos (digits2_pos m) - 1))
        by (apply Z.pow_le_mono_r; lia). lia.
    + rewrite (Z.pow_neg_r 2 n) in Hhi by lia. lia.
Qed.

Lemma quotient_bounds p k :
  k = Z.pos (digits2_pos p) - 53 -> 0 < k ->
  2 ^ 52 <= Z.pos p / 2 ^ k < 2 ^ 53.
Proof.
  intros Hk Hpos. pose proof (digits2_pos_bounds p) as [Dlo Dhi].
  assert (Hp : 0 < 2 ^ k) by (apply Z.pow_pos_nonneg; lia).
  replace (Z.pos (digits2_pos p) - 1) with (52 + k) in Dlo by lia.
  replace (Z.pos (digits2_pos p)) with (53 + k) in Dhi by lia.
  rewrite Z.pow_add_r in Dlo, Dhi by lia.
  split.
  - apply Z.div_le_lower_bound; [exact Hp|]. lia.
  - apply Z.div_lt_upper_bound; [exact Hp|]. lia.
Qed.

Lemma round_quotient_bounds a k :
  a / 2 ^ k <= Rounding.round_quotient a k <= a / 2 ^ k + 1.
Proof.
  unfold Rounding.round_quotient, round_nearest_even.
  destruct (Rounding.location_of a k) as [|[| |]]; try lia.
  destruct (Z.even (a / 2 ^ k)); lia.
Qed.

Lemma binary_round_aux_normal s m e :
  2 ^ 52 <= Z.pos m < 2 ^ 53 -> -1074 <= e ->
  binary_round_aux Sql.prec64 Sql.emax64 s (Z.pos m) e loc_Exact
  = Rounding.of_normal s (e, Z.pos m).
Proof.
  intros Hm He.
  assert (Hd : Z.pos (digits2_pos m) = 53) by (apply digits2_pos_unique; lia).
  unfold binary_round_aux, shr_fexp, fexp, emin, Sql.prec64, Sql.emax64,
    Rounding.of_normal.
  cbn [Zdigits2 shr_record_of_loc fst snd]. rewrite Hd.
  change IntDef.Z.max with Z.max.
  replace (Z.max (53 + e - 53) (3 - 1024 - 53) - e) with 0 by lia.
  cbn [shr shr_m loc_of_shr_record round_nearest_even Zdigits2 shr_record_of_loc].
  rewrite Hd.
  replace (Z.max (53 + e - 53) (3 - 1024 - 53) - e) with 0 by lia.
  cbn [shr shr_m Z.to_pos].
  reflexivity.
Qed.

Lemma binary_round_large s p :
  53 < Z.pos (digits2_pos p) ->
  binary_round Sql.prec64 Sql.emax64 s p 0
  = Rounding.of_normal s (Rounding.normal p).
Proof.
  intros Hd.
  destruct (Z.pos (digits2_pos p) - 53) as [|k|k] eqn:Hk; try lia.
  pose proof (quotient_bounds p (Z.pos k) ltac:(lia) ltac:(lia)) as Hq.
  pose proof (round_quotient_bounds (Z.pos p) (Z.pos k)) as Hr.
  destruct (shr_iter (Z.pos p) k ltac:(lia)) as [Hm Hloc].
  unfold Rounding.normal. cbv zeta.
  replace (Z.pos (digits2_pos p) <=? 53) with false
    by (symmetry; apply Z.leb_gt; lia).
  rewrite Hk.
  unfold binary_round, shl_align, fexp, emin.
  change IntDef.Z.max with Z.max.
  unfold Sql.prec64 at 1 2 3 4, Sql.emax64 at 1 2.
  replace (Z.max (Z.pos (digits2_pos p) + 0 - 53) (3 - 1024 - 53))
    with (Z.pos k) by lia.
  cbn [Z.sub Z.opp Z.add].
  unfold binary_round_aux at 1, shr_fexp at 1, fexp, emin.
  cbn [Zdigits2 shr_record_of_loc].
  change IntDef.Z.max with Z.max.
  unfold Sql.prec64 at 1 2, Sql.emax64 at 1.
  replace (Z.max (Z.pos (digits2_pos p) + 0 - 53) (3 - 1024 - 53) - 0)
    with (Z.pos k) by lia.
  cbn [shr]. rewrite Hm, Hloc.
  fold (Rounding.round_quotient (Z.pos p) (Z.pos k)).
  change (0 + Z.pos k) with (Z.pos k).
  remember (Rounding.round_quotient (Z.pos p) (Z.pos k)) as m2 eqn:Em2.
  destruct m2 as [|pm|pm]; try lia.
  unfold shr_fexp, fexp, emin, Sql.prec64, Sql.emax64, Rounding.of_normal.
  cbn [Zdigits2 shr_record_of_loc].
  change IntDef.Z.max with Z.max.
  destruct (Z.ltb_spec (Z.pos pm) (2 ^ 53)) as [Hlt|Hge].
  - assert (Hdm : Z.pos (digits2_pos pm) = 53)
      by (apply digits2_pos_unique; lia).
    rewrite Hdm.
    replace (Z.max (53 + Z.pos k - 53) (3 - 1024 - 53) - Z.pos k) with 0 by lia.
    cbn [shr shr_m fst snd Z.to_pos]. reflexivity.
  - assert (Hpm : pm = 9007199254740992%positive) by lia. subst pm.
    change (Z.pos (digits2_pos 9007199254740992)) with 54.
    replace (Z.max (54 + Z.pos k - 53) (3 - 1024 - 53) - Z.pos k) with 1 by lia.
    cbn [shr iter_pos shr_1 shr_m fst snd].
    replace (Z.pos k + 1) with (Z.pos (k + 1)) by lia.
    reflexivity.
Qed.

Lemma binary_round_normal s p :
  binary_round Sql.prec64 Sql.emax64 s p 0
  = Rounding.of_normal s (Rounding.normal p).
Proof.
  destruct (Z.le_gt_cases (Z.pos (digits2_pos p)) 53) as [Hd|Hd].
  - assert (Hp : Z.pos p < 2 ^ 53).
    { pose proof (digits2_pos_bounds p) as [_ Hhi].
      assert (2 ^ Z.pos (digits2_pos p) <= 2 ^ 53)
        by (apply Z.pow_le_mono_r; lia). lia. }
    destruct (binary_round_exact s p Hp) as [m [-> Hm]].
    unfold Rounding.normal, Rounding.of_normal. cbv zeta.
    replace (Z.pos (digits2_pos p) <=? 53) with true
      by (symmetry; apply Z.leb_le; lia).
    cbn [fst snd]. rewrite <- Hm.
    replace (Z.pos (digits2_pos p) - 53 <=? 971) with true
      by (symmetry; apply Z.leb_le; lia).
    reflexivity.
  - apply binary_round_large. lia.
Qed.

Lemma normal_mantissa p :
  2 ^ 52 <= snd (Rounding.normal p) < 2 ^ 53.
Proof.
  unfold Rounding.normal. cbv zeta.
  pose proof (digits2_pos_bounds p) as [Dlo Dhi].
  destruct (Z.leb_spec (Z.pos (digits2_pos p)) 53) as [Hd|Hd]; cbn [snd].
  - assert (Hc : 0 < 2 ^ (53 - Z.pos (digits2_pos p)))
      by (apply Z.pow_pos_nonneg; lia).
    assert (E52 : 2 ^ 52 = 2 ^ (Z.pos (digits2_pos p) - 1)
                           * 2 ^ (53 - Z.pos (digits2_pos p)))
      by (rewrite <- Z.pow_add_r by lia; f_equal; lia).
    assert (E53 : 2 ^ 53 = 2 ^ Z.pos (digits2_pos p)
                           * 2 ^ (53 - Z.pos (digits2_pos p)))
      by (rewrite <- Z.pow_add_r by lia; f_equal; lia).
    rewrite E52, E53. nia.
  - pose proof (quotient_bounds p (Z.pos (digits2_pos p) - 53) eq_refl ltac:(lia)).
    pose proof (round_quotient_bounds (Z.pos p) (Z.pos (digits2_pos p) - 53)).
    destruct (Z.ltb_spec
                (Rounding.round_quotient (Z.pos p) (Z.pos (digits2_pos p) - 53))
                (2 ^ 53)); cbn [snd]; lia.
Qed.

Lemma round_quotient_mono a1 a2 k :
  0 <= k -> a1 <= a2 ->
  Rounding.round_quotient a1 k <= Rounding.round_quotient a2 k.
Proof.
  intros Hk Ha.
  assert (Hc : 0 < 2 ^ k) by (apply Z.pow_pos_nonneg; lia).
  pose proof (Z.div_le_mono a1 a2 (2 ^ k) Hc Ha) as Hq.
  pose proof (round_quotient_bounds a1 k) as B1.
  pose proof (round_quotient_bounds a2 k) as B2.
  destruct (Z.eq_dec (a1 / 2 ^ k) (a2 / 2 ^ k)) as [Heq|Hne]; [|lia].
  pose proof (Z.div_mod a1 (2 ^ k) ltac:(lia)) as D1.
  pose proof (Z.div_mod a2 (2 ^ k) ltac:(lia)) as D2.
  pose proof (Z.mod_pos_bound a1 (2 ^ k) Hc) as R1.
  pose proof (Z.mod_pos_bound a2 (2 ^ k) Hc) as R2.
  clear B1 B2.
  unfold Rounding.round_quotient, Rounding.location_of, round_nearest_even.
  cbv zeta. rewrite <- Heq in *.
  assert (Hrem : a1 mod 2 ^ k <= a2 mod 2 ^ k) by nia.
  destruct (Z.eqb_spec (a1 mod 2 ^ k) 0), (Z.eqb_spec (a2 mod 2 ^ k) 0);
    try destruct (Z.compare_spec (2 * (a1 mod 2 ^ k)) (2 ^ k));
    try destruct (Z.compare_spec (2 * (a2 mod 2 ^ k)) (2 ^ k));
    try destruct (Z.even (a1 / 2 ^ k)); lia.
Qed.

Lemma digits2_pos_mono p1 p2 :
  Z.pos p1 <= Z.pos p2 -> Z.pos (digits2_pos p1) <= Z.pos (digits2_pos p2).
Proof.
  intros Hp. pose proof (digits2_pos_bounds p1) as [Lo1 _].
  pose proof (digits2_pos_bounds p2) as [_ Hi2].
  destruct (Z.le_gt_cases (Z.pos (digits2_pos p1)) (Z.pos (digits2_pos p2)))
    as [|Hgt]; [assumption|exfalso].
  assert (2 ^ Z.pos (digits2_pos p2) <= 2 ^ (Z.pos (digits2_pos p1) - 1))
    by (apply Z.pow_le_mono_r; lia). lia.
Qed.

Lemma normal_exponent p :
  fst (Rounding.normal p) = Z.pos (digits2_pos p) - 53
  \/ (fst (Rounding.normal p) = Z.pos (digits2_pos p) - 53 + 1
      /\ snd (Rounding.normal p) = 2 ^ 52).
Proof.
  unfold Rounding.normal. cbv zeta.
  destruct (Z.pos (digits2_pos p) <=? 53); [left; reflexivity|].
  destruct (_ <? 2 ^ 53); [left|right; split]; reflexivity.
Qed.

(** The cast is monotone on positive integers: exponents, then mantissas. *)
Lemma normal_mono p1 p2 :
  Z.pos p1 <= Z.pos p2 ->
  fst (Rounding.normal p1) < fst (Rounding.normal p2)
  \/ (fst (Rounding.normal p1) = fst (Rounding.normal p2)
      /\ snd (Rounding.normal p1) <= snd (Rounding.normal p2)).
Proof.
  intros Hp. pose proof (digits2_pos_mono p1 p2 Hp) as Hd.
  pose proof (normal_mantissa p1) as M1. pose proof (normal_mantissa p2) as M2.
  destruct (Z.eq_dec (Z.pos (digits2_pos p1)) (Z.pos (digits2_pos p2)))
    as [Heq|Hne].
  - unfold Rounding.normal in *. cbv zeta in *. rewrite <- Heq in *.
    destruct (Z.leb_spec (Z.pos (digits2_pos p1)) 53) as [H53|H53].
    + right. cbn [fst snd]. split; [reflexivity|].
      assert (0 < 2 ^ (53 - Z.pos (digits2_pos p1)))
        by (apply Z.pow_pos_nonneg; lia). nia.
    + pose proof (round_quotient_mono (Z.pos p1) (Z.pos p2)
                    (Z.pos (digits2_pos p1) - 53) ltac:(lia) Hp) as Hrq.
      destruct (Z.ltb_spec
                  (Rounding.round_quotient (Z.pos p1) (Z.pos (digits2_pos p1) - 53))
                  (2 ^ 53)),
               (Z.ltb_spec
                  (Rounding.round_quotient (Z.pos p2) (Z.pos (digits2_pos p1) - 53))
                  (2 ^ 53)); cbn [fst snd] in *; lia.
  - destruct (normal_exponent p1) as [E1|[E1 S1]],
             (normal_exponent p2) as [E2|[E2 S2]]; lia.
Qed.

Lemma compare_of_normal s em1 em2 :
  0 < snd em1 -> 0 < snd em2 ->
  fst em1 < fst em2 \/ (fst em1 = fst em2 /\ snd em1 <= snd em2) ->
  Sql.compareDoubles (Rounding.of_normal s em1) (Rounding.of_normal s em2)
  <> (if s then Lt else Gt).
Proof.
  destruct em1 as [e1 m1], em2 as [e2 m2]. cbn [fst snd].
  intros H1 H2 Hle. rewrite compareDoubles_SFcompare.
  unfold Rounding.of_normal. cbn [fst snd].
  destruct (Z.leb_spec e1 971), (Z.leb_spec e2 971); cbn [SFcompare];
    try (destruct s; discriminate); try lia.
  change (Pos.compare_cont Eq (Z.to_pos m1) (Z.to_pos m2))
    with (Pos.compare (Z.to_pos m1) (Z.to_pos m2)).
  rewrite <- Z2Pos.inj_compare by assumption.
  destruct s; destruct (Z.compare_spec e1 e2); try discriminate; try lia;
    destruct (Z.compare_spec m1 m2); cbn; try discriminate; lia.
Qed.

(** The cast of integers to doubles preserves the order, rounding
    included. *)
Lemma double_of_Z_mono z1 z2 :
  z1 <= z2 ->
  Sql.compareDoubles (Sql.double_of_Z z1) (Sql.double_of_Z z2) <> Gt.
Proof.
  intros Hz. unfold Sql.double_of_Z, binary_normalize.
  destruct z1 as [|p1|p1], z2 as [|p2|p2]; try lia;
    rewrite ?binary_round_normal.
  - rewrite compareDoubles_refl. discriminate.
  - pose proof (normal_mantissa p2).
    rewrite compareDoubles_SFcompare. unfold Rounding.of_normal.
    destruct (_ <=? 971); discriminate.
  - apply (compare_of_normal false).
    + pose proof (normal_mantissa p1); lia.
    + pose proof (normal_mantissa p2); lia.
    + apply normal_mono. exact Hz.
  - rewrite compareDoubles_SFcompare. unfold Rounding.of_normal.
    destruct (_ <=? 971); discriminate.
  - rewrite compareDoubles_SFcompare. unfold Rounding.of_normal.
    destruct (_ <=? 971), (_ <=? 971); discriminate.
  - rewrite compareDoubles_antisym.
    pose proof (compare_of_normal true (Rounding.normal p2) (Rounding.normal p1)) as Hc.
    destruct (Sql.compareDoubles _ _); cbn; try discriminate.
    exfalso. apply Hc; [| |apply normal_mono; lia|reflexivity].
    + pose proof (normal_mantissa p2); lia.
    + pose proof (normal_mantissa p1); lia.
Qed.
(** ** The division by 3600 *)

Lemma binary_round_aux_even s m e :
  2 ^ 52 <= Z.pos m < 2 ^ 53 -> -1074 <= e ->
  binary_round_aux Sql.prec64 Sql.emax64 s (Z.pos m~0) e loc_Exact
  = Rounding.of_normal s (e + 1, Z.pos m).
Proof.
  intros Hm He.
  assert (Hd : Z.pos (digits2_pos m) = 53) by (apply digits2_pos_unique; lia).
  assert (Hd' : Z.pos (digits2_pos m~0) = 54)
    by (cbn [digits2_pos]; rewrite Pos2Z.inj_succ; lia).
  unfold binary_round_aux, shr_fexp, fexp, emin, Sql.prec64, Sql.emax64,
    Rounding.of_normal.
  cbn [Zdigits2 shr_record_of_loc fst snd]. rewrite Hd'.
  change IntDef.Z.max with Z.max.
  replace (Z.max (54 + e - 53) (3 - 1024 - 53) - e) with 1 by lia.
  cbn [shr iter_pos shr_1 shr_m loc_of_shr_record round_nearest_even
       Zdigits2 shr_record_of_loc orb].
  rewrite Hd.
  replace (Z.max (53 + (e + 1) - 53) (3 - 1024 - 53) - (e + 1)) with 0 by lia.
  cbn [shr shr_m Z.to_pos]. reflexivity.
Qed.

Lemma SFdiv_core_hours ma ea q :
  2 ^ 52 <= Z.pos ma < 2 ^ 53 -> -52 <= ea <= 0 ->
  Z.pos ma * 2 ^ 53 = q * 7916483719987200 ->
  SFdiv_core_binary Sql.prec64 Sql.emax64 (Z.pos ma) ea 7916483719987200 (-41)
  = (q, ea - 12, loc_Exact).
Proof.
  intros Hm He Hq.
  assert (Hd : Z.pos (digits2_pos ma) = 53) by (apply digits2_pos_unique; lia).
  unfold SFdiv_core_binary, fexp, emin, Sql.prec64, Sql.emax64.
  cbn [Zdigits2]. rewrite Hd.
  change (Z.pos (digits2_pos 7916483719987200)) with 53.
  change IntDef.Z.max with Z.max. change IntDef.Z.min with Z.min.
  change IntDef.Z.shiftl with Z.shiftl. change IntDef.Z.div_eucl with Z.div_eucl.
  replace (Z.min (Z.max (53 + ea - (53 + -41) - 53) (3 - 1024 - 53)) (ea - -41))
    with (ea - 12) by lia.
  replace (ea - -41 - (ea - 12)) with 53 by lia.
  cbv beta iota.
  rewrite Z.shiftl_mul_pow2 by lia. rewrite Hq.
  pose proof (Z.div_eucl_eq (q * 7916483719987200) 7916483719987200 ltac:(lia)) as E.
  pose proof (Z.mod_pos_bound (q * 7916483719987200) 7916483719987200 ltac:(lia)) as B.
  unfold Z.modulo in B.
  destruct (Z.div_eucl (q * 7916483719987200) 7916483719987200) as [q0 r].
  assert (r = 0 /\ q0 = q) as [-> ->] by nia.
  reflexivity.
Qed.

Lemma scaled_bounds x d :
  0 < d <= 53 -> 2 ^ (d - 1) <= x < 2 ^ d ->
  2 ^ 52 <= x * 2 ^ (53 - d) < 2 ^ 53.
Proof.
  intros Hd [Hlo Hhi].
  assert (HX : 0 < 2 ^ (53 - d)) by (apply Z.pow_pos_nonneg; lia).
  assert (E1 : 2 ^ 52 = 2 ^ (d - 1) * 2 ^ (53 - d))
    by (rewrite <- Z.pow_add_r by lia; f_equal; lia).
  assert (E2 : 2 ^ 53 = 2 ^ d * 2 ^ (53 - d))
    by (rewrite <- Z.pow_add_r by lia; f_equal; lia).
  split.
  - rewrite E1. apply Z.mul_le_mono_nonneg_r; lia.
  - rewrite E2. apply Z.mul_lt_mono_pos_r; lia.
Qed.

Lemma digits_of_hours p ph :
  Z.pos p = 3600 * Z.pos ph ->
  Z.pos (digits2_pos p) = Z.pos (digits2_pos ph) + 11
  \/ Z.pos (digits2_pos p) = Z.pos (digits2_pos ph) + 12.
Proof.
  intros E.
  pose proof (digits2_pos_bounds p) as [Plo Phi].
  pose proof (digits2_pos_bounds ph) as [Hlo Hhi].
  set (da := Z.pos (digits2_pos p)) in *.
  set (dh := Z.pos (digits2_pos ph)) in *.
  assert (0 < dh) by (subst dh; lia).
  assert (0 < da) by (subst da; lia).
  destruct (Z.le_gt_cases da (dh + 10)) as [Hle|Hgt].
  - exfalso.
    assert (2 ^ da <= 2 ^ (dh + 10)) by (apply Z.pow_le_mono_r; lia).
    replace (dh + 10) with ((dh - 1) + 11) in * by lia.
    rewrite Z.pow_add_r in * by lia.
    change (2 ^ 11) with 2048 in *. lia.
  - destruct (Z.le_gt_cases (dh + 13) da) as [Hle|Hgt'].
    + exfalso.
      assert (2 ^ (dh + 12) <= 2 ^ (da - 1)) by (apply Z.pow_le_mono_r; lia).
      rewrite Z.pow_add_r in * by lia.
      change (2 ^ 12) with 4096 in *. lia.
    + lia.
Qed.

Lemma SFdiv_hours s p ph :
  Z.pos p = 3600 * Z.pos ph -> Z.pos p < 2 ^ 53 ->
  SFdiv Sql.prec64 Sql.emax64 (binary_round Sql.prec64 Sql.emax64 s p 0)
    (S754_finite false 7916483719987200 (-41))
  = binary_round Sql.prec64 Sql.emax64 s ph 0.
Proof.
  intros E Hp.
  destruct (binary_round_exact s p Hp) as (ma & Ea & Hma).
  destruct (binary_round_exact s ph ltac:(lia)) as (mh & Eh & Hmh).
  rewrite Ea, Eh. clear Ea Eh.
  pose proof (digits2_pos_le_53 p Hp) as Dp.
  pose proof (digits2_pos_bounds p) as [Plo Phi].
  pose proof (digits2_pos_bounds ph) as [Hlo Hhi].
  pose proof (digits_of_hours p ph E) as Hd.
  set (da := Z.pos (digits2_pos p)) in *.
  set (dh := Z.pos (digits2_pos ph)) in *.
  assert (0 < dh) by (subst dh; lia).
  assert (0 < da) by (subst da; lia).
  assert (Bm : 2 ^ 52 <= Z.pos mh < 2 ^ 53)
    by (rewrite Hmh; apply scaled_bounds; lia).
  assert (Ba : 2 ^ 52 <= Z.pos ma < 2 ^ 53)
    by (rewrite Hma; apply scaled_bounds; lia).
  assert (HX : 0 < 2 ^ (53 - da)) by (apply Z.pow_pos_nonneg; lia).
  cbn [SFdiv]. destruct Hd as [Hd|Hd].
  - rewrite (SFdiv_core_hours ma (da - 53) (Z.pos mh~0)); [|lia|lia|].
    + rewrite binary_round_aux_even by lia.
      unfold Rounding.of_normal. cbn [fst snd Z.to_pos].
      destruct (da - 53 - 12 + 1 <=? 971) eqn:L; [|apply Z.leb_gt in L; lia].
      rewrite xorb_false_r. f_equal. lia.
    + change (Z.pos mh~0) with (2 * Z.pos mh). rewrite Hma, Hmh, E.
      replace (53 - dh) with ((53 - da) + 11) by lia.
      rewrite Z.pow_add_r by lia.
      change (2 ^ 11) with 2048. change (2 ^ 53) with 9007199254740992.
      set (X := 2 ^ (53 - da)) in *. lia.
  - rewrite (SFdiv_core_hours ma (da - 53) (Z.pos mh)); [|lia|lia|].
    + rewrite binary_round_aux_normal by lia.
      unfold Rounding.of_normal. cbn [fst snd Z.to_pos].
      destruct (da - 53 - 12 <=? 971) eqn:L; [|apply Z.leb_gt in L; lia].
      rewrite xorb_false_r. f_equal. lia.
    + rewrite Hma, Hmh, E.
      replace (53 - dh) with ((53 - da) + 12) by lia.
      rewrite Z.pow_add_r by lia.
      change (2 ^ 12) with 4096. change (2 ^ 53) with 9007199254740992.
      set (X := 2 ^ (53 - da)) in *. lia.
Qed.

(** ** The quotient of a division, rounded *)

Lemma round_nearest_even_near m l :
  round_nearest_even m l = m \/ round_nearest_even m l = m + 1.
Proof.
  destruct l as [|[| |]]; cbn [round_nearest_even]; auto.
  destruct (Z.even m); auto.
Qed.

Lemma binary_round_aux_stage s mx ex lx mrs e1 m2 :
  shr_fexp Sql.prec64 Sql.emax64 mx ex lx = (mrs, e1) ->
  round_nearest_even (shr_m mrs) (loc_of_shr_record mrs) = m2 ->
  2 ^ 52 <= m2 <= 2 ^ 53 -> -1074 <= e1 <= 970 ->
  binary_round_aux Sql.prec64 Sql.emax64 s mx ex lx
  = if m2 <? 2 ^ 53 then S754_finite s (Z.to_pos m2) e1
    else S754_finite s 4503599627370496 (e1 + 1).
Proof.
  intros H1 H2 Hm He. unfold binary_round_aux. rewrite H1, H2.
  destruct m2 as [|pm|pm]; try lia.
  unfold shr_fexp, fexp, emin, Sql.prec64, Sql.emax64.
  cbn [Zdigits2 shr_record_of_loc].
  change IntDef.Z.max with Z.max.
  destruct (Z.ltb_spec (Z.pos pm) (2 ^ 53)) as [Hlt|Hge].
  - assert (Hdm : Z.pos (digits2_pos pm) = 53)
      by (apply digits2_pos_unique; lia).
    rewrite Hdm.
    replace (Z.max (53 + e1 - 53) (3 - 1024 - 53) - e1) with 0 by lia.
    cbn [shr shr_m fst snd Z.to_pos].
    replace (e1 <=? 1024 - 53) with true by (symmetry; apply Z.leb_le; lia).
    reflexivity.
  - assert (Hpm : pm = 9007199254740992%positive) by lia. subst pm.
    change (Z.pos (digits2_pos 9007199254740992)) with 54.
    replace (Z.max (54 + e1 - 53) (3 - 1024 - 53) - e1) with 1 by lia.
    cbn [shr iter_pos shr_1 shr_m fst snd].
    replace (e1 + 1 <=? 1024 - 53) with true by (symmetry; apply Z.leb_le; lia).
    reflexivity.
Qed.

(** A quotient of 53 or 54 bits is rounded to a double within two units of
    it, whatever the remainder. *)
Lemma binary_round_aux_near s mq e loc :
  2 ^ 52 <= Z.pos mq < 2 ^ 54 -> -1074 <= e <= 900 ->
  exists m' k,
    binary_round_aux Sql.prec64 Sql.emax64 s (Z.pos mq) e loc
    = S754_finite s m' (e + k)
    /\ 0 <= k <= 2 /\ 2 ^ 52 <= Z.pos m' < 2 ^ 53
    /\ Z.pos mq - 1 <= Z.pos m' * 2 ^ k <= Z.pos mq + 2.
Proof.
  intros Hq He.
  destruct (Z.lt_ge_cases (Z.pos mq) (2 ^ 53)) as [Hlt|Hge].
  - assert (Hd : Z.pos (digits2_pos mq) = 53)
      by (apply digits2_pos_unique; lia).
    assert (H1 : shr_fexp Sql.prec64 Sql.emax64 (Z.pos mq) e loc
                 = (shr_record_of_loc (Z.pos mq) loc, e)).
    { unfold shr_fexp, fexp, emin, Sql.prec64, Sql.emax64.
      cbn [Zdigits2]. rewrite Hd. change IntDef.Z.max with Z.max.
      replace (Z.max (53 + e - 53) (3 - 1024 - 53) - e) with 0 by lia.
      reflexivity. }
    assert (H2 : loc_of_shr_record (shr_record_of_loc (Z.pos mq) loc) = loc)
      by (destruct loc as [|[| |]]; reflexivity).
    assert (H3 : shr_m (shr_record_of_loc (Z.pos mq) loc) = Z.pos mq)
      by (destruct loc as [|[| |]]; reflexivity).
    pose proof (round_nearest_even_near (Z.pos mq) loc) as Hn.
    rewrite (binary_round_aux_stage s _ _ _ _ e
               (round_nearest_even (Z.pos mq) loc) H1);
      [|rewrite H2, H3; reflexivity|lia|lia].
    destruct (Z.ltb_spec (round_nearest_even (Z.pos mq) loc) (2 ^ 53)) as [L|G].
    + exists (Z.to_pos (round_nearest_even (Z.pos mq) loc)), 0.
      rewrite Z.add_0_r, Z2Pos.id by lia.
      change (2 ^ 0) with 1. repeat split; try reflexivity; lia.
    + exists 4503599627370496%positive, 1.
      change (2 ^ 1) with 2. change (2 ^ 53) with 9007199254740992 in *.
      change (2 ^ 52) with 4503599627370496 in *.
      repeat split; try reflexivity; lia.
  - assert (Hd : Z.pos (digits2_pos mq) = 54)
      by (apply digits2_pos_unique; lia).
    assert (H1 : exists r1 s1,
               shr_fexp Sql.prec64 Sql.emax64 (Z.pos mq) e loc
               = (Build_shr_record (Z.pos mq / 2) r1 s1, e + 1)).
    { unfold shr_fexp, fexp, emin, Sql.prec64, Sql.emax64.
      cbn [Zdigits2]. rewrite Hd. change IntDef.Z.max with Z.max.
      replace (Z.max (54 + e - 53) (3 - 1024 - 53) - e) with 1 by lia.
      cbn [shr iter_pos].
      change (2 ^ 53) with 9007199254740992 in Hge.
      destruct mq as [p|p|]; [| |lia].
      - replace (Z.pos p~1 / 2) with (Z.pos p)
          by (apply (Z.div_unique _ 2 _ 1); lia).
        destruct loc as [|[| |]]; cbn [shr_record_of_loc shr_1 orb];
          do 2 eexists; reflexivity.
      - replace (Z.pos p~0 / 2) with (Z.pos p)
          by (apply (Z.div_unique _ 2 _ 0); lia).
        destruct loc as [|[| |]]; cbn [shr_record_of_loc shr_1 orb];
          do 2 eexists; reflexivity. }
    destruct H1 as (r1 & s1 & H1).
    set (mrs := Build_shr_record (Z.pos mq / 2) r1 s1) in *.
    pose proof (round_nearest_even_near (Z.pos mq / 2) (loc_of_shr_record mrs))
      as Hn.
    pose proof (Z.div_mod (Z.pos mq) 2 ltac:(lia)) as Hdm.
    pose proof (Z.mod_pos_bound (Z.pos mq) 2 ltac:(lia)) as Hmb.
    change (2 ^ 53) with 9007199254740992 in *.
    change (2 ^ 54) with 18014398509481984 in *.
    change (2 ^ 52) with 4503599627370496 in *.
    rewrite (binary_round_aux_stage s _ _ _ _ (e + 1)
               (round_nearest_even (Z.pos mq / 2) (loc_of_shr_record mrs)) H1);
      [|reflexivity|change (2 ^ 53) with 9007199254740992;
                    change (2 ^ 52) with 4503599627370496; lia|lia].
    change (2 ^ 53) with 9007199254740992.
    destruct (Z.ltb_spec (round_nearest_even (Z.pos mq / 2) (loc_of_shr_record mrs))
                9007199254740992) as [L|G].
    + exists (Z.to_pos (round_nearest_even (Z.pos mq / 2) (loc_of_shr_record mrs))), 1.
      rewrite Z2Pos.id by lia.
      change (2 ^ 1) with 2. repeat split; try reflexivity; lia.
    + exists 4503599627370496%positive, 2.
      change (2 ^ 2) with 4.
      replace (e + 1 + 1) with (e + 2) by lia.
      repeat split; try reflexivity; lia.
Qed.

Lemma SFdiv_core_quotient ma ea :
  2 ^ 52 <= Z.pos ma < 2 ^ 53 -> -52 <= ea <= 0 ->
  exists loc,
    SFdiv_core_binary Sql.prec64 Sql.emax64 (Z.pos ma) ea 7916483719987200 (-41)
    = (Z.pos ma * 2 ^ 53 / 7916483719987200, ea - 12, loc).
Proof.
  intros Hm He.
  assert (Hd : Z.pos (digits2_pos ma) = 53) by (apply digits2_pos_unique; lia).
  unfold SFdiv_core_binary, fexp, emin, Sql.prec64, Sql.emax64.
  cbn [Zdigits2]. rewrite Hd.
  change (Z.pos (digits2_pos 7916483719987200)) with 53.
  change IntDef.Z.max with Z.max. change IntDef.Z.min with Z.min.
  change IntDef.Z.shiftl with Z.shiftl. change IntDef.Z.div_eucl with Z.div_eucl.
  replace (Z.min (Z.max (53 + ea - (53 + -41) - 53) (3 - 1024 - 53)) (ea - -41))
    with (ea - 12) by lia.
  replace (ea - -41 - (ea - 12)) with 53 by lia.
  cbv beta iota.
  rewrite Z.shiftl_mul_pow2 by lia.
  unfold Z.div.
  destruct (Z.div_eucl (Z.pos ma * 2 ^ 53) 7916483719987200) as [q0 r].
  eexists. reflexivity.
Qed.

(** The lag of a positive number of seconds below [2 ^ 51]: a double within
    two units of the quotient by 3600, in the last place kept. *)
Lemma SFdiv_near s p :
  Z.pos p < 2 ^ 51 ->
  exists m' k,
    SFdiv Sql.prec64 Sql.emax64 (binary_round Sql.prec64 Sql.emax64 s p 0)
      (S754_finite false 7916483719987200 (-41))
    = S754_finite s m' (Z.pos (digits2_pos p) - 65 + k)
    /\ 0 <= k <= 2 /\ 2 ^ 52 <= Z.pos m' < 2 ^ 53
    /\ Z.pos p * 2 ^ (65 - Z.pos (digits2_pos p)) / 3600 - 1
       <= Z.pos m' * 2 ^ k
       <= Z.pos p * 2 ^ (65 - Z.pos (digits2_pos p)) / 3600 + 2.
Proof.
  intros Hp.
  assert (Hp' : Z.pos p < 2 ^ 53) by (change (2 ^ 51) with 2251799813685248 in Hp;
                                       change (2 ^ 53) with 9007199254740992; lia).
  destruct (binary_round_exact s p Hp') as (ma & Ea & Hma).
  rewrite Ea. clear Ea.
  pose proof (digits2_pos_le_53 p Hp') as Dp.
  pose proof (digits2_pos_bounds p) as Bp.
  set (da := Z.pos (digits2_pos p)) in *.
  assert (0 < da) by (subst da; lia).
  assert (Ba : 2 ^ 52 <= Z.pos ma < 2 ^ 53)
    by (rewrite Hma; apply scaled_bounds; lia).
  destruct (SFdiv_core_quotient ma (da - 53) Ba ltac:(lia)) as [loc Hcore].
  cbn [SFdiv]. rewrite Hcore. clear Hcore.
  assert (Hq : Z.pos ma * 2 ^ 53 / 7916483719987200
               = Z.pos p * 2 ^ (65 - da) / 3600).
  { rewrite Hma.
    replace (65 - da) with ((53 - da) + 12) by lia.
    rewrite Z.pow_add_r by lia.
    change 7916483719987200 with (3600 * 2 ^ 41).
    replace (Z.pos p * 2 ^ (53 - da) * 2 ^ 53)
      with (Z.pos p * (2 ^ (53 - da) * 2 ^ 12) * 2 ^ 41)
      by (change (2 ^ 53) with (2 ^ 12 * 2 ^ 41); ring).
    apply Z.div_mul_cancel_r; lia. }
  assert (Bq : 2 ^ 52 <= Z.pos ma * 2 ^ 53 / 7916483719987200 < 2 ^ 54).
  { change (2 ^ 52) with 4503599627370496 in *.
    change (2 ^ 53) with 9007199254740992 in *.
    change (2 ^ 54) with 18014398509481984.
    split.
    - apply Z.div_le_lower_bound; lia.
    - apply Z.div_lt_upper_bound; lia. }
  rewrite Hq in *.
  destruct (Z.pos p * 2 ^ (65 - da) / 3600) as [|mq|mq] eqn:Eq;
    [change (2 ^ 52) with 4503599627370496 in Bq; lia| |lia].
  destruct (binary_round_aux_near s mq (da - 53 - 12) loc Bq ltac:(lia))
    as (m' & k & E & Hk & Hm' & Hnear).
  exists m', k. rewrite xorb_false_r, E.
  repeat split; try lia. f_equal. lia.
Qed.

Lemma scaled_lt m1 m2 T U :
  2 ^ 52 <= m2 -> m1 < 2 ^ 53 -> 0 < T -> 2 <= U ->
  m1 * T < m2 * (T * U).
Proof.
  change (2 ^ 52) with 4503599627370496. change (2 ^ 53) with 9007199254740992.
  intros H2 H1 HT HU.
  assert (m1 * T < 9007199254740992 * T) by (apply Z.mul_lt_mono_pos_r; lia).
  assert (T * 2 <= T * U) by (apply Z.mul_le_mono_nonneg_l; lia).
  assert (4503599627370496 * (T * 2) <= m2 * (T * U))
    by (apply Z.mul_le_mono_nonneg; lia).
  lia.
Qed.

(** Doubles with 53-bit mantissas and the same sign compare as their
    values do. *)
Lemma SFcompare_normalised s m1 e1 m2 e2 C :
  2 ^ 52 <= Z.pos m1 < 2 ^ 53 -> 2 ^ 52 <= Z.pos m2 < 2 ^ 53 ->
  0 <= e1 + C -> 0 <= e2 + C ->
  Sql.compareDoubles (S754_finite s m1 e1) (S754_finite s m2 e2)
  = let c := Z.pos m1 * 2 ^ (e1 + C) ?= Z.pos m2 * 2 ^ (e2 + C) in
    if s then CompOpp c else c.
Proof.
  intros B1 B2 H1 H2. rewrite compareDoubles_SFcompare. cbv zeta.
  assert (Hc : match e1 ?= e2 with
               | Eq => Pos.compare_cont Eq m1 m2
               | Lt => Lt
               | Gt => Gt
               end = (Z.pos m1 * 2 ^ (e1 + C) ?= Z.pos m2 * 2 ^ (e2 + C))).
  { change (Pos.compare_cont Eq m1 m2) with (Z.pos m1 ?= Z.pos m2).
    destruct (Z.compare_spec e1 e2) as [He|He|He].
    - subst e2.
      assert (0 < 2 ^ (e1 + C)) by (apply Z.pow_pos_nonneg; lia).
      apply Zmult_compare_compat_r. lia.
    - symmetry. apply Z.compare_lt_iff.
      replace (e2 + C) with ((e1 + C) + (e2 - e1)) by lia.
      rewrite (Z.pow_add_r 2 (e1 + C) (e2 - e1)) by lia.
      assert (0 < 2 ^ (e1 + C)) by (apply Z.pow_pos_nonneg; lia).
      assert (2 ^ 1 <= 2 ^ (e2 - e1)) by (apply Z.pow_le_mono_r; lia).
      apply (scaled_lt (Z.pos m1) (Z.pos m2)); tauto.
    - symmetry. apply Z.compare_gt_iff.
      replace (e1 + C) with ((e2 + C) + (e1 - e2)) by lia.
      rewrite (Z.pow_add_r 2 (e2 + C) (e1 - e2)) by lia.
      assert (0 < 2 ^ (e2 + C)) by (apply Z.pow_pos_nonneg; lia).
      assert (2 ^ 1 <= 2 ^ (e1 - e2)) by (apply Z.pow_le_mono_r; lia).
      apply (scaled_lt (Z.pos m2) (Z.pos m1)); tauto. }
  destruct s; cbn [SFcompare]; rewrite <- Hc.
  - destruct (e1 ?= e2); reflexivity.
  - reflexivity.
Qed.

Lemma lag_compare_pos s p ph :
  Z.pos p < 2 ^ 51 -> Z.pos ph < 2 ^ 53 ->
  Sql.compareDoubles
    (SFdiv Sql.prec64 Sql.emax64 (binary_round Sql.prec64 Sql.emax64 s p 0)
       (S754_finite false 7916483719987200 (-41)))
    (binary_round Sql.prec64 Sql.emax64 s ph 0)
  = let c := Z.pos p ?= 3600 * Z.pos ph in if s then CompOpp c else c.
Proof.
  intros Hp Hph. cbv zeta.
  assert (Hp' : Z.pos p < 2 ^ 53)
    by (change (2 ^ 51) with 2251799813685248 in Hp;
        change (2 ^ 53) with 9007199254740992; lia).
  destruct (Z.eq_dec (Z.pos p) (3600 * Z.pos ph)) as [E|NE].
  { rewrite (SFdiv_hours s p ph E Hp'), compareDoubles_refl.
    rewrite E, Z.compare_refl. destruct s; reflexivity. }
  destruct (SFdiv_near s p Hp) as (m' & k & E & Hk & Hm' & Hnear).
  destruct (binary_round_exact s ph Hph) as (mh & Eh & Hmh).
  rewrite E, Eh. clear E Eh.
  pose proof (digits2_pos_le_53 ph Hph) as Dh.
  pose proof (digits2_pos_bounds ph) as Bh.
  pose proof (digits2_pos_bounds p) as Bp.
  set (da := Z.pos (digits2_pos p)) in *.
  set (dh := Z.pos (digits2_pos ph)) in *.
  assert (0 < da) by (subst da; lia). assert (0 < dh) by (subst dh; lia).
  assert (Da : da <= 51).
  { destruct (Z.le_gt_cases da 51); [assumption|exfalso].
    assert (2 ^ 51 <= 2 ^ (da - 1)) by (apply Z.pow_le_mono_r; lia). lia. }
  rewrite (SFcompare_normalised s m' _ mh _ (65 - da + 53));
    [|lia|rewrite Hmh; apply scaled_bounds; lia|lia|lia].
  cbv zeta.
  assert (ER : Z.pos mh * 2 ^ (dh - 53 + (65 - da + 53))
               = Z.pos ph * 2 ^ (65 - da) * 2 ^ 53).
  { rewrite Hmh. replace (dh - 53 + (65 - da + 53)) with (dh + (65 - da)) by lia.
    rewrite (Z.pow_add_r 2 dh (65 - da)) by lia.
    replace (2 ^ 53) with (2 ^ (53 - dh) * 2 ^ dh)
      by (rewrite <- Z.pow_add_r by lia; f_equal; lia).
    ring. }
  assert (EL : Z.pos m' * 2 ^ (da - 65 + k + (65 - da + 53))
               = Z.pos m' * 2 ^ k * 2 ^ 53).
  { replace (da - 65 + k + (65 - da + 53)) with (k + 53) by lia.
    rewrite (Z.pow_add_r 2 k 53) by lia. ring. }
  rewrite EL, ER. clear EL ER.
  rewrite <- (Zmult_compare_compat_r _ _ (2 ^ 53)) by reflexivity.
  assert (HT : 2 ^ 14 <= 2 ^ (65 - da)) by (apply Z.pow_le_mono_r; lia).
  pose proof (Z.div_mod (Z.pos p * 2 ^ (65 - da)) 3600 ltac:(lia)) as Hdm.
  pose proof (Z.mod_pos_bound (Z.pos p * 2 ^ (65 - da)) 3600 ltac:(lia)) as Hmb.
  change (2 ^ 14) with 16384 in HT.
  set (T := 2 ^ (65 - da)) in *.
  set (q := Z.pos p * T / 3600) in *.
  set (r := (Z.pos p * T) mod 3600) in *.
  set (M := Z.pos m' * 2 ^ k) in *.
  assert (Hc : (M ?= Z.pos ph * T) = (Z.pos p ?= 3600 * Z.pos ph)).
  { destruct (Z.compare_spec (Z.pos p) (3600 * Z.pos ph)) as [E|L|G];
      [contradiction| |].
    - apply Z.compare_lt_iff.
      assert (HY : Z.pos p * T <= (3600 * Z.pos ph - 1) * T)
        by (apply Z.mul_le_mono_nonneg_r; lia).
      lia.
    - apply Z.compare_gt_iff.
      assert (HY : (3600 * Z.pos ph + 1) * T <= Z.pos p * T)
        by (apply Z.mul_le_mono_nonneg_r; lia).
      lia. }
  rewrite Hc. reflexivity.
Qed.

(** The lag in hours against a whole number of hours: the division and its
    rounding keep the order of the seconds. *)
Lemma lag_compare a h :
  Z.abs a < 2 ^ 51 -> Z.abs h < 2 ^ 53 ->
  Sql.compareDoubles
    (SFdiv Sql.prec64 Sql.emax64 (Sql.double_of_Z a)
       (S754_finite false 7916483719987200 (-41)))
    (Sql.double_of_Z h)
  = (a ?= 3600 * h).
Proof.
  intros Ha Hh. unfold Sql.double_of_Z, binary_normalize.
  destruct a as [|p|p], h as [|ph|ph];
    try (rewrite (lag_compare_pos _ p ph) by lia; reflexivity);
    try reflexivity;
    repeat match goal with
    | |- context [SFdiv _ _ (binary_round _ _ ?s ?p 0) _] =>
        let m := fresh "m" in let k := fresh "k" in let E := fresh "E" in
        destruct (SFdiv_near s p ltac:(lia)) as (m & k & E & _); rewrite E; clear E
    | |- context [binary_round _ _ ?s ?p 0] =>
        let m := fresh "m" in let E := fresh "E" in
        destruct (binary_round_exact s p ltac:(lia)) as (m & E & _); rewrite E; clear E
    end; reflexivity.
Qed.

(** The lag against any integer threshold, for a count of seconds that two
    timestamps can be apart. *)
Lemma lag_gt_iff a h :
  Z.abs a < 2 ^ 51 ->
  Sql.compareDoubles
    (SFdiv Sql.prec64 Sql.emax64 (Sql.double_of_Z a)
       (S754_finite false 7916483719987200 (-41)))
    (Sql.double_of_Z h) = Gt
  <-> 3600 * h < a.
Proof.
  intros Ha.
  set (d := SFdiv Sql.prec64 Sql.emax64 (Sql.double_of_Z a)
              (S754_finite false 7916483719987200 (-41))).
  assert (Hcmp : forall k, Z.abs k < 2 ^ 53 ->
            Sql.compareDoubles d (Sql.double_of_Z k) = (a ?= 3600 * k))
    by (intros k Hk; apply lag_compare; assumption).
  change (2 ^ 53) with 9007199254740992 in Hcmp.
  change (2 ^ 51) with 2251799813685248 in Ha.
  destruct (Z.lt_ge_cases (Z.abs h) 9007199254740992) as [Hh|Hh].
  - rewrite (Hcmp h Hh). rewrite Z.compare_gt_iff. tauto.
  - destruct (Z.le_gt_cases 0 h) as [Hpos|Hneg].
    + split; [|lia]. intros Hgt. exfalso.
      pose proof (Hcmp 4503599627370496 ltac:(lia)) as Hc.
      assert (Hlt : (a ?= 3600 * 4503599627370496) = Lt)
        by (apply Z.compare_lt_iff; lia).
      rewrite Hlt in Hc.
      assert (Hg : Sql.compareDoubles d (Sql.double_of_Z 4503599627370496) = Gt).
      { apply compareDoubles_gt_le_trans with (h2 := Sql.double_of_Z h);
          [exact Hgt|]. apply double_of_Z_mono. lia. }
      congruence.
    + split; [lia|]. intros _.
      pose proof (Hcmp (-4503599627370496) ltac:(lia)) as Hc.
      assert (Hgt : (a ?= 3600 * -4503599627370496) = Gt)
        by (apply Z.compare_gt_iff; lia).
      rewrite Hgt in Hc.
      apply compareDoubles_gt_le_trans
        with (h2 := Sql.double_of_Z (-4503599627370496));
        [exact Hc|]. apply double_of_Z_mono. lia.
Qed.

Lemma double_of_Z_hours k :
  Z.abs (3600 * k) < 2 ^ 53 ->
  SFdiv Sql.prec64 Sql.emax64 (Sql.double_of_Z (3600 * k))
    (S754_finite false 7916483719987200 (-41))
  = Sql.double_of_Z k.
Proof.
  intros Hk. destruct k as [|pk|pk].
  - reflexivity.
  - change (3600 * Z.pos pk) with (Z.pos (3600 * pk)) in *.
    unfold Sql.double_of_Z, binary_normalize.
    apply SFdiv_hours; lia.
  - change (3600 * Z.neg pk) with (Z.neg (3600 * pk)) in *.
    unfold Sql.double_of_Z, binary_normalize.
    apply SFdiv_hours; lia.
Qed.

(** ** Evaluation that may raise *)

Lemma for_each_Return {A B : Type} (f : A -> Py.outcome B) (l : list A)
    (l' : list B) :
  Py.for_each f l = Py.Return l' <->
  Forall2 (fun a b => f a = Py.Return b) l l'.
Proof.
  revert l'. induction l as [|a l IH]; intros l'; cbn [Py.for_each].
  - split.
    + intros E. assert (l' = []) by congruence. subst. constructor.
    + intros F. inversion F. reflexivity.
  - unfold Py.and_then at 1. destruct (f a) as [b|e] eqn:Hf.
    + unfold Py.and_then. destruct (Py.for_each f l) as [bs|e] eqn:Hl.
      * split.
        -- intros E. assert (l' = b :: bs) by congruence. subst.
           constructor; [exact Hf|]. apply IH. reflexivity.
        -- intros F. inversion F as [|a0 b0 l0 bs0 Hb Hbs]; subst.
           apply IH in Hbs. congruence.
      * split; [discriminate|].
        intros F. inversion F as [|a0 b0 l0 bs0 Hb Hbs]; subst.
        apply IH in Hbs. discriminate.
    + split; [discriminate|].
      intros F. inversion F as [|a0 b0 l0 bs0 Hb Hbs]; subst. congruence.
Qed.

Lemma for_each_answers {A B : Type} (f : A -> Py.outcome B) (l : list A) :
  Forall (fun a => Spec.answers (f a)) l <-> Spec.answers (Py.for_each f l).
Proof.
  induction l as [|a l IH]; cbn [Py.for_each].
  - split; [intros _; eexists; reflexivity|constructor].
  - split.
    + intros F. inversion F as [|a0 l0 [b Hb] Hl]; subst.
      apply IH in Hl. destruct Hl as [bs Hbs].
      rewrite Hb, Hbs. eexists. reflexivity.
    + intros [bs E]. unfold Py.and_then in E.
      destruct (f a) as [b|e] eqn:Hf; [|discriminate].
      destruct (Py.for_each f l) as [bs'|e] eqn:Hl; [|discriminate].
      constructor; [exists b; first [exact Hf|reflexivity]|].
      apply IH. exists bs'. first [exact Hl|reflexivity].
Qed.

Lemma for_each_In {A B : Type} (f : A -> Py.outcome B) (l : list A)
    (l' : list B) (b : B) :
  Py.for_each f l = Py.Return l' ->
  (In b l' <-> exists a, In a l /\ f a = Py.Return b).
Proof.
  intros E. apply for_each_Return in E.
  induction E as [|a b0 l l' Hb _ IH].
  - split; [intros []|intros [a [[] _]]].
  - cbn [In]. rewrite IH. split.
    + intros [<-|[a' [Ha' Hf]]]; [exists a; auto|exists a'; auto].
    + intros [a' [[<-|Ha'] Hf]]; [left; congruence|right; exists a'; auto].
Qed.

Lemma for_each_raises {A B : Type} (f : A -> Py.outcome B) (l : list A)
    (a : A) (e : Py.exn) :
  In a l -> f a = Py.Raise e -> exists e', Py.for_each f l = Py.Raise e'.
Proof.
  intros Ha Hf. destruct (Py.for_each f l) as [l'|e'] eqn:E;
    [|exists e'; reflexivity].
  exfalso. assert (Hans : Spec.answers (Py.for_each f l))
    by (exists l'; exact E).
  apply for_each_answers in Hans. rewrite Forall_forall in Hans.
  destruct (Hans a Ha) as [b Hb]. congruence.
Qed.

Lemma for_each_fmap {A B C : Type} (f : A -> Py.outcome B) (h : B -> C)
    (l : list A) :
  Py.for_each (fun a => Py.fmap h (f a)) l
  = Py.fmap (map h) (Py.for_each f l).
Proof.
  induction l as [|a l IH]; [reflexivity|]. cbn [Py.for_each].
  rewrite IH. unfold Py.fmap, Py.and_then.
  destruct (f a); [|reflexivity]. destruct (Py.for_each f l); reflexivity.
Qed.

Lemma for_each_map {A A' B : Type} (g : A -> A') (f : A' -> Py.outcome B)
    (l : list A) :
  Py.for_each f (map g l) = Py.for_each (fun a => f (g a)) l.
Proof.
  induction l as [|a l IH]; [reflexivity|]. cbn [map Py.for_each].
  rewrite IH. reflexivity.
Qed.

(** ** The late-log filter *)

Lemma wrap64_small z : - 2 ^ 63 <= z < 2 ^ 63 -> Sql.wrap64 z = z.
Proof.
  intros Hz. unfold Sql.wrap64. rewrite Z.mod_small by lia. lia.
Qed.

Lemma is_true_gt a h :
  Sql.is_true (Sql.gt a (Some h)) = true <->
  exists d, a = Some d /\ Sql.compareDoubles d h = Gt.
Proof.
  destruct a as [d|]; simpl.
  - destruct (Sql.compareDoubles d h) eqn:Hc; split;
      try discriminate; try (intros [d' [[= <-] Hd]]; congruence).
    intros _. exists d. auto.
  - split; [discriminate|]. intros [d [[=] _]].
Qed.

(** The hours between two timestamps: their seconds subtracted without
    wrapping, as a double, divided by the double 3600. *)
Lemma time_diff_hours_of tc ti :
  - 2 ^ 63 <= tc < 2 ^ 63 -> - 2 ^ 63 <= ti < 2 ^ 63 ->
  Sql.divide
    (Sql.long_sub (Datetime.unix_timestamp (Some ti))
       (Datetime.unix_timestamp (Some tc)))
    (Some 3600)
  = Some (SFdiv Sql.prec64 Sql.emax64
            (Sql.double_of_Z (Z.quot ti 1000000 - Z.quot tc 1000000))
            (Sql.double_of_Z 3600)).
Proof.
  intros Hc Hi. pose proof (unix_timestamp_range tc Hc).
  pose proof (unix_timestamp_range ti Hi).
  cbn [Datetime.unix_timestamp Sql.long_sub].
  rewrite wrap64_small
    by (change (2 ^ 63) with 9223372036854775808; lia).
  reflexivity.
Qed.

Lemma time_diff_hours_null c i :
  c = None \/ i = None ->
  Sql.divide
    (Sql.long_sub (Datetime.unix_timestamp i) (Datetime.unix_timestamp c))
    (Some 3600)
  = None.
Proof.
  intros [E|E]; subst; [destruct i|destruct c]; reflexivity.
Qed.

Section Filter.
Context `{Datetime.Session} {R : Type} `{TimeColumns R}.

Lemma with_time_diff_Return (r : R) (r' : Late.row R) :
  Etl.with_time_diff r = Py.Return r' <->
  exists c i,
    Datetime.to_timestamp (createdAt_col r) Datetime.pattern = Py.Return c
    /\ Datetime.to_timestamp (ingestedAt_col r) Datetime.pattern = Py.Return i
    /\ r' = Late.mk r c i
              (Sql.divide
                 (Sql.long_sub (Datetime.unix_timestamp i)
                    (Datetime.unix_timestamp c))
                 (Some 3600)).
Proof.
  unfold Etl.with_time_diff, Py.and_then.
  destruct (Datetime.to_timestamp (createdAt_col r) Datetime.pattern)
    as [c|e]; [|split; [discriminate|intros (c & i & E & _); discriminate]].
  destruct (Datetime.to_timestamp (ingestedAt_col r) Datetime.pattern)
    as [i|e]; [|split; [discriminate|intros (c' & i & _ & E & _); discriminate]].
  split.
  - intros E. exists c, i. repeat split; congruence.
  - intros (c' & i' & Ec & Ei & ->). congruence.
Qed.

Lemma with_time_diff_base (r : R) (r' : Late.row R) :
  Etl.with_time_diff r = Py.Return r' -> Late.base r' = r.
Proof.
  intros E. apply with_time_diff_Return in E.
  destruct E as (c & i & _ & _ & ->). reflexivity.
Qed.

Lemma with_time_diff_answers (r : R) :
  Spec.answers (Datetime.to_timestamp (createdAt_col r) Datetime.pattern)
  /\ Spec.answers (Datetime.to_timestamp (ingestedAt_col r) Datetime.pattern)
  <-> Spec.answers (Etl.with_time_diff r).
Proof.
  split.
  - intros [[c Hc] [i Hi]]. eexists. apply with_time_diff_Return.
    exists c, i. repeat split; eauto.
  - intros [r' E]. apply with_time_diff_Return in E.
    destruct E as (c & i & Hc & Hi & _). split; eexists; eauto.
Qed.

Lemma readable_for_each (data : list R) :
  Spec.readable data <-> Spec.answers (Py.for_each Etl.with_time_diff data).
Proof.
  rewrite <- for_each_answers. unfold Spec.readable.
  rewrite !Forall_forall. split; intros F r Hr;
    apply with_time_diff_answers; auto.
Qed.

Lemma filter_late_logs_Return (data : list R) (hours : Z)
    (late : list (Late.row R)) :
  Etl.filter_late_logs data hours = Py.Return late <->
  exists all,
    Py.for_each Etl.with_time_diff data = Py.Return all
    /\ late
       = filter
           (fun r =>
              Sql.is_true
                (Sql.gt (Late.time_diff_hours r)
                   (Some (Sql.double_of_Z hours))))
           all.
Proof.
  unfold Etl.filter_late_logs, Py.and_then.
  destruct (Py.for_each Etl.with_time_diff data) as [all|e].
  - split.
    + intros E. exists all. split; congruence.
    + intros (all' & E & ->). congruence.
  - split; [discriminate|intros (all & E & _); discriminate].
Qed.

Lemma filter_late_logs_readable (data : list R) (hours : Z) :
  Spec.readable data <-> Spec.answers (Etl.filter_late_logs data hours).
Proof.
  rewrite readable_for_each. unfold Etl.filter_late_logs, Py.and_then.
  destruct (Py.for_each Etl.with_time_diff data) as [all|e].
  - split; intros _; eexists; reflexivity.
  - split; intros [x E]; discriminate.
Qed.


Lemma filter_late_logs_In (data : list R) (hours : Z)
    (late : list (Late.row R)) (r' : Late.row R) :
  Etl.filter_late_logs data hours = Py.Return late ->
  (In r' late <->
   exists r, In r data /\ Etl.with_time_diff r = Py.Return r'
     /\ exists d, Late.time_diff_hours r' = Some d
          /\ Sql.compareDoubles d (Sql.double_of_Z hours) = Gt).
Proof.
  intros E. apply filter_late_logs_Return in E.
  destruct E as (all & Hall & ->). rewrite filter_In, is_true_gt.
  rewrite (for_each_In _ _ _ r' Hall). split.
  - intros [[r [Hr Hw]] Hd]. exists r. auto.
  - intros [r [Hr [Hw Hd]]]. split; [exists r; auto|exact Hd].
Qed.

(** The rows retained, in whole seconds: the core of the filter. *)
Lemma retained_iff (data : list R) (hours : Z) (late : list (Late.row R))
    (r : R) :
  Etl.filter_late_logs data hours = Py.Return late ->
  (Spec.retained late r <->
   In r data
   /\ exists tc ti,
        Datetime.to_timestamp (createdAt_col r) Datetime.pattern
        = Py.Return (Some tc)
        /\ Datetime.to_timestamp (ingestedAt_col r) Datetime.pattern
           = Py.Return (Some ti)
        /\ 3600 * hours < Z.quot ti 1000000 - Z.quot tc 1000000).
Proof.
  intros E. unfold Spec.retained. split.
  - intros [r' [Hin Hbase]].
    apply (filter_late_logs_In _ _ _ _ E) in Hin.
    destruct Hin as (r0 & Hr0 & Hw & d & Hd & Hgt).
    pose proof (with_time_diff_base _ _ Hw) as Hb.
    rewrite Hbase in Hb. subst r0. split; [exact Hr0|].
    apply with_time_diff_Return in Hw. destruct Hw as (c & i & Hc & Hi & ->).
    cbn [Late.time_diff_hours] in Hd.
    destruct c as [tc|]; [|rewrite time_diff_hours_null in Hd by auto;
                            discriminate].
    destruct i as [ti|]; [|rewrite time_diff_hours_null in Hd by auto;
                            discriminate].
    pose proof (to_timestamp_range _ _ _ Hc) as Rc.
    pose proof (to_timestamp_range _ _ _ Hi) as Ri.
    assert (Ed : Some d
                 = Some (SFdiv Sql.prec64 Sql.emax64
                           (Sql.double_of_Z (Z.quot ti 1000000 - Z.quot tc 1000000))
                           (Sql.double_of_Z 3600)))
      by (rewrite <- Hd; apply (time_diff_hours_of tc ti Rc Ri)).
    assert (d = SFdiv Sql.prec64 Sql.emax64
                  (Sql.double_of_Z (Z.quot ti 1000000 - Z.quot tc 1000000))
                  (Sql.double_of_Z 3600)) by congruence. subst d.
    exists tc, ti. repeat split; try assumption.
    apply lag_gt_iff; [|exact Hgt].
    pose proof (unix_timestamp_range tc Rc).
    pose proof (unix_timestamp_range ti Ri).
    change (2 ^ 51) with 2251799813685248. lia.
  - intros [Hr (tc & ti & Hc & Hi & Hlt)].
    pose proof (to_timestamp_range _ _ _ Hc) as Rc.
    pose proof (to_timestamp_range _ _ _ Hi) as Ri.
    exists (Late.mk r (Some tc) (Some ti)
              (Sql.divide
                 (Sql.long_sub (Datetime.unix_timestamp (Some ti))
                    (Datetime.unix_timestamp (Some tc)))
                 (Some 3600))).
    split; [|reflexivity].
    apply (filter_late_logs_In _ _ _ _ E). exists r. split; [exact Hr|].
    split.
    + apply with_time_diff_Return. exists (Some tc), (Some ti).
      repeat split; auto.
    + cbn [Late.time_diff_hours Late.base]. eexists.
      split; [apply (time_diff_hours_of tc ti Rc Ri)|].
      apply lag_gt_iff; [|exact Hlt].
      pose proof (unix_timestamp_range tc Rc).
      pose proof (unix_timestamp_range ti Ri).
      change (2 ^ 51) with 2251799813685248. lia.
Qed.

End Filter.

Section Rows.
Context `{Datetime.Session} {R : Type} `{TimeColumns R}.

(** The columns of a row whose two cells are read as timestamps. *)
Lemma with_time_diff_read (r : R) (tc ti : Datetime.timestamp) :
  Datetime.to_timestamp (createdAt_col r) Datetime.pattern
  = Py.Return (Some tc) ->
  Datetime.to_timestamp (ingestedAt_col r) Datetime.pattern
  = Py.Return (Some ti) ->
  Etl.with_time_diff r
  = Py.Return
      (Late.mk r (Some tc) (Some ti)
         (Some (SFdiv Sql.prec64 Sql.emax64
                  (Sql.double_of_Z (Z.quot ti 1000000 - Z.quot tc 1000000))
                  (Sql.double_of_Z 3600)))).
Proof.
  intros Hc Hi. apply with_time_diff_Return. exists (Some tc), (Some ti).
  split; [exact Hc|]. split; [exact Hi|]. f_equal. symmetry.
  apply time_diff_hours_of; eapply to_timestamp_range; eassumption.
Qed.


(** Texts that parse, in a row: the columns in terms of their instants. *)
Lemma with_time_diff_parsed (r : R) (c i : string)
    (fc fi : Datetime.fields) :
  createdAt_col r = Some c -> ingestedAt_col r = Some i ->
  Datetime.parse Datetime.pattern c = Some fc ->
  Datetime.parse Datetime.pattern i = Some fi ->
  - 9223372036854 <= Datetime.instant fc <= 9223372036854 ->
  - 9223372036854 <= Datetime.instant fi <= 9223372036854 ->
  Etl.with_time_diff r
  = Py.Return
      (Late.mk r (Some (Datetime.instant fc * 1000000))
         (Some (Datetime.instant fi * 1000000))
         (Some (SFdiv Sql.prec64 Sql.emax64
                  (Sql.double_of_Z (Datetime.instant fi - Datetime.instant fc))
                  (Sql.double_of_Z 3600)))).
Proof.
  intros Hc Hi Pc Pi Rc Ri.
  rewrite (with_time_diff_read r (Datetime.instant fc * 1000000)
             (Datetime.instant fi * 1000000)).
  - rewrite !Z.quot_mul by lia. reflexivity.
  - rewrite Hc. apply to_timestamp_parsed; assumption.
  - rewrite Hi. apply to_timestamp_parsed; assumption.
Qed.

End Rows.
(** * The claims *)

(** C1.  End-to-end scenario: on the two log rows [a] (ingested five hours
    after creation, value 2.0) and [b] (ingested half an hour after creation,
    value 9.0), the experiments table with the single row (1, Exp1) and the
    constant metrics table, [join_tables], then [filter_late_logs] with
    [hours = 1], then [calculate_experiment_final_scores] give exactly one
    row, (expId 1, metricId 0, maxValue 2.0, minValue 2.0): the lags are 5.0
    and 0.5 hours and only row [a] passes the filter.  This holds in every
    session whose time zone is at one offset at the three local times of the
    scenario. *)
Theorem end_to_end_scenario `{Datetime.Session} :
  Datetime.zone_offset
    (Datetime.epoch_second (Datetime.mkFields 2024 1 1 0 30 0))
  = Datetime.zone_offset
      (Datetime.epoch_second (Datetime.mkFields 2024 1 1 0 0 0)) ->
  Datetime.zone_offset
    (Datetime.epoch_second (Datetime.mkFields 2024 1 1 5 0 0))
  = Datetime.zone_offset
      (Datetime.epoch_second (Datetime.mkFields 2024 1 1 0 0 0)) ->
  let joined :=
    Etl.join_tables [Scenario.log_a; Scenario.log_b] Scenario.experiments
      Etl.metrics in
  exists all late,
    Py.for_each Etl.with_time_diff joined = Py.Return all
    /\ map (@Late.time_diff_hours _) all
       = [Some (Sql.double_of_Z 5);
          Some (SFdiv Sql.prec64 Sql.emax64 (Sql.double_of_Z 1)
                  (Sql.double_of_Z 2))]
    /\ Etl.filter_late_logs joined 1 = Py.Return late
    /\ map (fun r => Joined.logId (Late.base r)) late = [Some "a"%string]
    /\ Etl.calculate_experiment_final_scores late
       = [Score.mk (Some 1) (Some 0) (Scenario.f32 2) (Scenario.f32 2)].
Proof.
  intros Hb Ha.
  change (Datetime.epoch_second (Datetime.mkFields 2024 1 1 0 0 0))
    with 1704067200 in *.
  change (Datetime.epoch_second (Datetime.mkFields 2024 1 1 0 30 0))
    with 1704069000 in *.
  change (Datetime.epoch_second (Datetime.mkFields 2024 1 1 5 0 0))
    with 1704085200 in *.
  pose proof (Datetime.zone_offset_range 1704067200) as Ho.
  let j := eval vm_compute in
    (Etl.join_tables [Scenario.log_a; Scenario.log_b] Scenario.experiments
       Etl.metrics) in
  change (Etl.join_tables [Scenario.log_a; Scenario.log_b]
            Scenario.experiments Etl.metrics) with j.
  cbv zeta.
  match goal with
  | |- context [Py.for_each _ [?ja; ?jb]] =>
      assert (Wa : Etl.with_time_diff ja
                   = Py.Return
                       (Late.mk ja
                          (Some ((1704067200 - Datetime.zone_offset 1704067200) * 1000000))
                          (Some ((1704085200 - Datetime.zone_offset 1704067200) * 1000000))
                          (Some (Sql.double_of_Z 5))));
      [|assert (Wb : Etl.with_time_diff jb
                   = Py.Return
                       (Late.mk jb
                          (Some ((1704067200 - Datetime.zone_offset 1704067200) * 1000000))
                          (Some ((1704069000 - Datetime.zone_offset 1704067200) * 1000000))
                          (Some (SFdiv Sql.prec64 Sql.emax64 (Sql.double_of_Z 1)
                                   (Sql.double_of_Z 2)))))]
  end.
  - rewrite (with_time_diff_parsed _ "2024-01-01T00:00:00" "2024-01-01T05:00:00"
               (Datetime.mkFields 2024 1 1 0 0 0)
               (Datetime.mkFields 2024 1 1 5 0 0));
      try reflexivity.
    + unfold Datetime.instant.
      change (Datetime.epoch_second (Datetime.mkFields 2024 1 1 0 0 0))
        with 1704067200.
      change (Datetime.epoch_second (Datetime.mkFields 2024 1 1 5 0 0))
        with 1704085200.
      rewrite Ha.
      replace (1704085200 - Datetime.zone_offset 1704067200
               - (1704067200 - Datetime.zone_offset 1704067200))
        with 18000 by lia.
      reflexivity.
    + unfold Datetime.instant.
      change (Datetime.epoch_second (Datetime.mkFields 2024 1 1 0 0 0))
        with 1704067200. lia.
    + unfold Datetime.instant.
      change (Datetime.epoch_second (Datetime.mkFields 2024 1 1 5 0 0))
        with 1704085200. lia.
  - rewrite (with_time_diff_parsed _ "2024-01-01T00:00:00" "2024-01-01T00:30:00"
               (Datetime.mkFields 2024 1 1 0 0 0)
               (Datetime.mkFields 2024 1 1 0 30 0));
      try reflexivity.
    + unfold Datetime.instant.
      change (Datetime.epoch_second (Datetime.mkFields 2024 1 1 0 0 0))
        with 1704067200.
      change (Datetime.epoch_second (Datetime.mkFields 2024 1 1 0 30 0))
        with 1704069000.
      rewrite Hb.
      replace (1704069000 - Datetime.zone_offset 1704067200
               - (1704067200 - Datetime.zone_offset 1704067200))
        with 1800 by lia.
      reflexivity.
    + unfold Datetime.instant.
      change (Datetime.epoch_second (Datetime.mkFields 2024 1 1 0 0 0))
        with 1704067200. lia.
    + unfold Datetime.instant.
      change (Datetime.epoch_second (Datetime.mkFields 2024 1 1 0 30 0))
        with 1704069000. lia.
  - unfold Etl.filter_late_logs. cbn [Py.for_each].
    rewrite Wa, Wb. cbn [Py.and_then].
    eexists. eexists. split; [reflexivity|].
    split; [reflexivity|]. split; [reflexivity|].
    split; reflexivity.
Qed.

Lemma end_to_end_scenario_witness :
  let joined :=
    Etl.join_tables [Scenario.log_a; Scenario.log_b] Scenario.experiments
      Etl.metrics in
  exists all late,
    Py.for_each (Etl.with_time_diff (H := Scenario.utc)) joined
    = Py.Return all
    /\ map (@Late.time_diff_hours _) all
       = [Some (Sql.double_of_Z 5);
          Some (SFdiv Sql.prec64 Sql.emax64 (Sql.double_of_Z 1)
                  (Sql.double_of_Z 2))]
    /\ Etl.filter_late_logs (H := Scenario.utc) joined 1 = Py.Return late
    /\ map (fun r => Joined.logId (Late.base r)) late = [Some "a"%string]
    /\ Etl.calculate_experiment_final_scores late
       = [Score.mk (Some 1) (Some 0) (Scenario.f32 2) (Scenario.f32 2)].
Proof.
  apply (@end_to_end_scenario Scenario.utc); reflexivity.
Defined.



(** C3, as stated, fails: a group whose values are all null is not dropped.
    The table [Scenario.with_null_group] has the pairs (1, 0), all of whose
    values are null, and (2, 0); the output has a row for each, the first
    with null extrema, although only one pair has a value that is not
    null. *)
Lemma all_null_group_is_kept :
  In (Score.mk (Some 1) (Some 0) None None)
     (Etl.calculate_experiment_final_scores Scenario.with_null_group)
  /\ List.length (Etl.calculate_experiment_final_scores Scenario.with_null_group)
     <> List.length (Spec.keys_with_value Scenario.with_null_group).
Proof.
  vm_compute. split; [auto|discriminate].
Qed.

Lemma max_is_max_of vs : Spec.is_max_of vs (Sql.max vs).
Proof.
  unfold Spec.is_max_of, Sql.max.
  destruct (fold_left Sql.greatest vs None) as [x|] eqn:Hx.
  - apply fold_greatest_Some in Hx. destruct Hx as [[Hx|Hin] Hub];
      [discriminate|]. split; [exact Hin|].
    apply Forall_forall. intros [y|] Hy; auto.
  - apply fold_greatest_None in Hx. destruct Hx as [_ Hall].
    apply Forall_forall. intros v Hv. symmetry. auto.
Qed.

Lemma min_is_min_of vs : Spec.is_min_of vs (Sql.min vs).
Proof.
  unfold Spec.is_min_of, Sql.min.
  destruct (fold_left Sql.least vs None) as [x|] eqn:Hx.
  - apply fold_least_Some in Hx. destruct Hx as [[Hx|Hin] Hlb];
      [discriminate|]. split; [exact Hin|].
    apply Forall_forall. intros [y|] Hy; auto.
  - apply fold_least_None in Hx. destruct Hx as [_ Hall].
    apply Forall_forall. intros v Hv. symmetry. auto.
Qed.

(** C3, amended.  [calculate_experiment_final_scores] groups by
    (expId, metricId) and gives one row per distinct pair of the input, so the
    row count is the number of distinct pairs; in each row maxValue and
    minValue are the greatest and the least value of the group that is not
    null (nulls are ignored), and both are null when every value of the group
    is null: such a group is kept.  For the group with values
    [3.0, 1.0, 5.0, null], maxValue = 5.0 and minValue = 1.0. *)
Theorem scores_ignore_nulls_keep_groups :
  (forall (R : Type) (C : ScoreColumns R) (data : list R),
     map Score.key (Etl.calculate_experiment_final_scores data)
     = Spec.distinct_keys data
     /\ List.length (Etl.calculate_experiment_final_scores data)
        = List.length (Spec.distinct_keys data)
     /\ Forall
          (fun s =>
             let vs := map value_col (Etl.group_rows data (Score.key s)) in
             Spec.is_max_of vs (Score.maxValue s)
             /\ Spec.is_min_of vs (Score.minValue s))
          (Etl.calculate_experiment_final_scores data))
  /\ Etl.calculate_experiment_final_scores Scenario.group_3_1_5_null
     = [Score.mk (Some 1) (Some 0) (Scenario.f32 5) (Scenario.f32 1)]
  /\ Etl.calculate_experiment_final_scores [Scenario.scored 1 0 None]
     = [Score.mk (Some 1) (Some 0) None None].
Proof.
  split; [|vm_compute; split; reflexivity].
  intros R C data. split; [apply scores_keys|]. split.
  - rewrite <- (length_map Score.key). f_equal. apply scores_keys.
  - apply Forall_forall. intros s Hs. apply scores_In in Hs.
    destruct Hs as [_ [-> ->]]. cbv zeta.
    split; [apply max_is_max_of|apply min_is_min_of].
Qed.

Lemma matching_nil_absent {B : Type} (kb : B -> option Sql.int)
    (k : option Sql.int) (right : list B) :
  k = None \/ ~ In k (map kb right) -> Sql.matching kb k right = [].
Proof.
  intros Hk. unfold Sql.matching.
  induction right as [|b right IH]; [reflexivity|]. simpl.
  destruct k as [x|]; [|apply IH; auto].
  destruct Hk as [Hk|Hk]; [discriminate|].
  destruct (kb b) as [y|] eqn:Hb; simpl.
  - destruct (Z.eqb_spec x y) as [->|Hne]; simpl.
    + exfalso. apply Hk. simpl. rewrite Hb. auto.
    + apply IH. right. intros Hin. apply Hk. simpl. auto.
  - apply IH. right. intros Hin. apply Hk. simpl. auto.
Qed.

Lemma join_tables_insert logs1 l logs2 experiments metrics :
  Etl.join_tables (logs1 ++ l :: logs2) experiments metrics
  = Etl.join_tables logs1 experiments metrics
    ++ Etl.join_tables [l] experiments metrics
    ++ Etl.join_tables logs2 experiments metrics.
Proof.
  change (l :: logs2) with ([l] ++ logs2). rewrite !join_tables_app.
  reflexivity.
Qed.

(** C4.  Inner join drops what does not match.  A log row whose expId is
    null or is not a key of the experiments table, or whose metricId is null
    or is not a key of the metrics table, gives no row of [join_tables]: the
    output for the row alone is empty, and the output for any table holding
    it is the output for the table without it.  [join_tables] is a total
    function: the row is dropped, nothing is raised. *)
Theorem join_tables_drops_unmatched logs1 l logs2 experiments metrics :
  (Log.expId l = None
   \/ ~ In (Log.expId l) (map Experiment.expId experiments))
  \/ (Log.metricId l = None
      \/ ~ In (Log.metricId l) (map Metric.metricId metrics)) ->
  Etl.join_tables [l] experiments metrics = []
  /\ Etl.join_tables (logs1 ++ l :: logs2) experiments metrics
     = Etl.join_tables (logs1 ++ logs2) experiments metrics.
Proof.
  intros Hno.
  assert (Hl : Etl.join_tables [l] experiments metrics = []).
  { rewrite join_tables_single. destruct Hno as [He|Hm].
    - rewrite (matching_nil_absent _ _ _ He). reflexivity.
    - rewrite (matching_nil_absent _ _ _ Hm).
      induction (Sql.matching _ _ experiments); [reflexivity|assumption]. }
  split; [exact Hl|].
  rewrite join_tables_insert, Hl, join_tables_app. reflexivity.
Qed.

Lemma join_tables_drops_unmatched_witness :
  Etl.join_tables [Scenario.log_orphan] Scenario.experiments Etl.metrics = []
  /\ Etl.join_tables ([Scenario.log_a] ++ Scenario.log_orphan :: [Scenario.log_b])
       Scenario.experiments Etl.metrics
     = Etl.join_tables ([Scenario.log_a] ++ [Scenario.log_b])
         Scenario.experiments Etl.metrics.
Proof.
  apply (join_tables_drops_unmatched [Scenario.log_a] Scenario.log_orphan
           [Scenario.log_b] Scenario.experiments Etl.metrics).
  left. right. simpl. intros [H|[]]. discriminate H.
Defined.


(** C5.  Join fan-out.  The rows [join_tables] derives from a log row stand
    in the output at the place of the log row, and there is one of them for
    every pair of an experiments row with the log row's expId and a metrics
    row with its metricId: their number is the number of experiments rows
    with that expId times the number of metrics rows with that metricId
    (a null key counts for none).  When two rows of the experiments table
    have the expId of the log row, and one row of the metrics table its
    metricId, the log row comes out twice, once with each experiments row,
    in the order of the table. *)
Theorem join_tables_fan_out logs1 l logs2 experiments metrics :
  let derived := Etl.join_tables [l] experiments metrics in
  Etl.join_tables (logs1 ++ l :: logs2) experiments metrics
  = Etl.join_tables logs1 experiments metrics
    ++ derived
    ++ Etl.join_tables logs2 experiments metrics
  /\ List.length derived
     = (Spec.occurrences (Log.expId l) (map Experiment.expId experiments)
        * Spec.occurrences (Log.metricId l) (map Metric.metricId metrics))%nat
  /\ (forall e m,
        In e experiments -> In m metrics ->
        Log.expId l <> None -> Experiment.expId e = Log.expId l ->
        Log.metricId l <> None -> Metric.metricId m = Log.metricId l ->
        In (Etl.select_joined (l, e, m)) derived)
  /\ (forall xs e1 ys e2 zs us m vs,
        experiments = xs ++ e1 :: ys ++ e2 :: zs ->
        metrics = us ++ m :: vs ->
        Log.expId l <> None ->
        Experiment.expId e1 = Log.expId l ->
        Experiment.expId e2 = Log.expId l ->
        ~ In (Log.expId l) (map Experiment.expId (xs ++ ys ++ zs)) ->
        Log.metricId l <> None ->
        Metric.metricId m = Log.metricId l ->
        ~ In (Log.metricId l) (map Metric.metricId (us ++ vs)) ->
        derived
        = [Etl.select_joined (l, e1, m); Etl.select_joined (l, e2, m)]).
Proof.
  cbv zeta. split; [|split; [|split]].
  - change (l :: logs2) with ([l] ++ logs2). rewrite !join_tables_app.
    reflexivity.
  - rewrite join_tables_single_length, !matching_occurrences. reflexivity.
  - intros e m He Hm Hke Ee Hkm Em. apply join_tables_In.
    exists l, e, m. split; [left; reflexivity|].
    split; [exact He|]. split; [exact Hm|].
    destruct (Log.expId l) as [k|]; [|congruence].
    destruct (Log.metricId l) as [k'|]; [|congruence].
    split; [exists k; auto|]. split; [exists k'; auto|reflexivity].
  - intros xs e1 ys e2 zs us m vs -> -> Hke E1 E2 Hno Hkm Em Hnom.
    rewrite join_tables_single.
    repeat (rewrite map_app in Hno || rewrite in_app_iff in Hno).
    repeat (rewrite map_app in Hnom || rewrite in_app_iff in Hnom).
    assert (Mm : Sql.matching Metric.metricId (Log.metricId l) (us ++ m :: vs)
                 = [m]).
    { rewrite matching_app, matching_cons_same by assumption.
      rewrite !matching_absent by tauto. reflexivity. }
    assert (Me : Sql.matching Experiment.expId (Log.expId l)
                   (xs ++ e1 :: ys ++ e2 :: zs)
                 = [e1; e2]).
    { rewrite matching_app, matching_cons_same by assumption.
      rewrite matching_app, matching_cons_same by assumption.
      rewrite !matching_absent by tauto. reflexivity. }
    rewrite Mm, Me. reflexivity.
Qed.

(** With the key 1 twice in the experiments table, row [a] of the scenario
    comes out twice, once with each experiment name. *)
Lemma join_tables_fan_out_witness :
  map (fun j => (Joined.logId j, Joined.expName j))
      (Etl.join_tables [Scenario.log_a] Scenario.experiments_twice Etl.metrics)
  = [ (Some "a"%string, Some "Exp1"%string);
      (Some "a"%string, Some "Exp1 bis"%string) ].
Proof.
  destruct (join_tables_fan_out [] Scenario.log_a []
              Scenario.experiments_twice Etl.metrics) as (_ & _ & _ & Htwice).
  rewrite (Htwice []
             (Experiment.mk (Some 1) (Some "Exp1"%string)) []
             (Experiment.mk (Some 1) (Some "Exp1 bis"%string)) []
             [] (Metric.mk (Some 0) (Some "Loss"%string))
             [Metric.mk (Some 1) (Some "Accuracy"%string)]);
    try reflexivity; try discriminate.
  - intros [].
  - cbn. intros [E|[]]. discriminate E.
Defined.






Lemma group_value_In {R : Type} `{ScoreColumns R} (data : list R)
    (k : Sql.key) (v : option Sql.float32) :
  In v (map value_col (Etl.group_rows data k)) ->
  exists r, In r data /\ value_col r = v.
Proof.
  intros Hv. apply in_map_iff in Hv. destruct Hv as [r [Hr Hin]].
  apply filter_In in Hin. exists r. tauto.
Qed.

(** C7.  The output of [calculate_experiment_final_scores] has exactly the
    columns expId and metricId, integers of 32 bits, and maxValue and
    minValue, floats of 32 bits, in this order, for every input table whose
    expId and metricId columns are integers and whose value column is a
    float: its schema is these four columns, and the cells of every row have
    their column's type, the extrema being values of the input and not
    widened.  There is exactly one row for each distinct (expId, metricId)
    pair of the input, and none for any other pair. *)
Theorem scores_schema_and_keys {R : Type} `{ScoreColumns R} (data : list R)
    (input : Sql.schema) :
  Sql.column_type "expId" input = Some Sql.IntegerType ->
  Sql.column_type "metricId" input = Some Sql.IntegerType ->
  Sql.column_type "value" input = Some Sql.FloatType ->
  Forall
    (fun r =>
       Sql.cell_has_type (Sql.IntCell (expId_col r)) Sql.IntegerType = true
       /\ Sql.cell_has_type (Sql.IntCell (metricId_col r)) Sql.IntegerType
          = true
       /\ Sql.cell_has_type (Sql.FloatCell (value_col r)) Sql.FloatType
          = true)
    data ->
  let scores := Etl.calculate_experiment_final_scores data in
  let schema :=
    [ ("expId"%string, Sql.IntegerType); ("metricId"%string, Sql.IntegerType);
      ("maxValue"%string, Sql.FloatType); ("minValue"%string, Sql.FloatType) ]
  in
  Etl.calculate_experiment_final_scores_schema input = Some schema
  /\ Forall
       (fun s =>
          Forall2
            (fun c col =>
               fst c = fst col
               /\ Sql.cell_has_type (snd c) (snd col) = true)
            (Score.cells s) schema)
       scores
  /\ NoDup (map Score.key scores)
  /\ (forall k,
        In k (map Score.key scores) <->
        In k (map (fun r => (expId_col r, metricId_col r)) data)).
Proof.
  intros He Hm Hv Htyped. cbv zeta. rewrite Forall_forall in Htyped.
  split; [|split; [|split]].
  - unfold Etl.calculate_experiment_final_scores_schema, Sql.agg_schema.
    cbn [Sql.select_schema Sql.aggregates_schema].
    rewrite He, Hm, Hv. reflexivity.
  - apply Forall_forall. intros s Hs. apply scores_In in Hs.
    destruct Hs as [Hk [Hmax Hmin]].
    apply in_map_iff in Hk. destruct Hk as [r [Hkey Hr]].
    destruct (Htyped r Hr) as [Te [Tm _]].
    unfold Score.key in Hkey.
    assert (Ee : expId_col r = Score.expId s) by congruence.
    assert (Em : metricId_col r = Score.metricId s) by congruence.
    rewrite Ee in Te. rewrite Em in Tm.
    assert (Tmax : Sql.cell_has_type (Sql.FloatCell (Score.maxValue s))
                     Sql.FloatType = true).
    { destruct (Score.maxValue s) as [x|] eqn:Ex; [|reflexivity].
      pose proof (max_is_max_of
                    (map value_col (Etl.group_rows data (Score.key s)))) as M.
      rewrite <- Hmax in M. destruct M as [Hin _].
      apply group_value_In in Hin. destruct Hin as [r0 [Hr0 E0]].
      destruct (Htyped r0 Hr0) as [_ [_ T0]]. rewrite E0 in T0. exact T0. }
    assert (Tmin : Sql.cell_has_type (Sql.FloatCell (Score.minValue s))
                     Sql.FloatType = true).
    { destruct (Score.minValue s) as [x|] eqn:Ex; [|reflexivity].
      pose proof (min_is_min_of
                    (map value_col (Etl.group_rows data (Score.key s)))) as M.
      rewrite <- Hmin in M. destruct M as [Hin _].
      apply group_value_In in Hin. destruct Hin as [r0 [Hr0 E0]].
      destruct (Htyped r0 Hr0) as [_ [_ T0]]. rewrite E0 in T0. exact T0. }
    unfold Score.cells. repeat constructor; cbn [fst snd]; assumption.
  - rewrite scores_keys. apply NoDup_nodup.
  - intros k. rewrite scores_keys. apply nodup_In.
Qed.

(** The schema the three stages give the scores of the tables of the
    loaders, and typed rows. *)
Lemma scores_schema_and_keys_witness :
  exists joined,
    Etl.join_tables_schema Etl.logs_schema Etl.experiments_schema
      Etl.metrics_schema = Some joined
    /\ Etl.calculate_experiment_final_scores_schema
         (Etl.filter_late_logs_schema joined)
       = Some
           [ ("expId"%string, Sql.IntegerType);
             ("metricId"%string, Sql.IntegerType);
             ("maxValue"%string, Sql.FloatType);
             ("minValue"%string, Sql.FloatType) ]
    /\ Forall
         (fun s =>
            Forall2
              (fun c col =>
                 fst c = fst col
                 /\ Sql.cell_has_type (snd c) (snd col) = true)
              (Score.cells s)
              [ ("expId"%string, Sql.IntegerType);
                ("metricId"%string, Sql.IntegerType);
                ("maxValue"%string, Sql.FloatType);
                ("minValue"%string, Sql.FloatType) ])
         (Etl.calculate_experiment_final_scores Scenario.group_3_1_5_null).
Proof.
  eexists. split; [reflexivity|].
  destruct (scores_schema_and_keys Scenario.group_3_1_5_null
              (Etl.filter_late_logs_schema
                 [ ("logId"%string, Sql.StringType);
                   ("expId"%string, Sql.IntegerType);
                   ("expName"%string, Sql.StringType);
                   ("metricId"%string, Sql.IntegerType);
                   ("metricName"%string, Sql.StringType);
                   ("valid"%string, Sql.BooleanType);
                   ("createdAt"%string, Sql.StringType);
                   ("ingestedAt"%string, Sql.StringType);
                   ("step"%string, Sql.IntegerType);
                   ("value"%string, Sql.FloatType) ]))
    as (Hs & Ht & _); try reflexivity.
  - repeat constructor.
  - split; [exact Hs|exact Ht].
Defined.

(** Rewriting a column that [filter_late_logs] does not read leaves its
    choice of rows, its exceptions and the other columns as they were. *)
Lemma filter_late_logs_frame `{Datetime.Session} {R : Type} `{TimeColumns R}
    (g : R -> R) (data : list R) (hours : Z) :
  (forall r, createdAt_col (g r) = createdAt_col r) ->
  (forall r, ingestedAt_col (g r) = ingestedAt_col r) ->
  Etl.filter_late_logs (map g data) hours
  = Py.fmap (map (Late.map_base g)) (Etl.filter_late_logs data hours).
Proof.
  intros Hc Hi. unfold Etl.filter_late_logs.
  assert (E : forall r,
            Etl.with_time_diff (g r)
            = Py.fmap (Late.map_base g) (Etl.with_time_diff r)).
  { intros r. unfold Etl.with_time_diff, Py.fmap, Py.and_then.
    rewrite Hc, Hi.
    destruct (Datetime.to_timestamp (createdAt_col r) Datetime.pattern);
      [|reflexivity].
    destruct (Datetime.to_timestamp (ingestedAt_col r) Datetime.pattern);
      reflexivity. }
  rewrite for_each_map.
  assert (Ef : Py.for_each (fun a => Etl.with_time_diff (g a)) data
               = Py.fmap (map (Late.map_base g))
                   (Py.for_each Etl.with_time_diff data)).
  { rewrite <- for_each_fmap. clear -E.
    induction data as [|r data IH]; [reflexivity|].
    cbn [Py.for_each]. rewrite E, IH. reflexivity. }
  rewrite Ef. clear Ef. unfold Py.fmap, Py.and_then.
  destruct (Py.for_each Etl.with_time_diff data) as [all|e]; [|reflexivity].
  f_equal. induction all as [|r all IH]; [reflexivity|].
  cbn [map filter Late.map_base Late.time_diff_hours].
  destruct (Sql.is_true _); cbn [map]; rewrite IH; reflexivity.
Qed.

Lemma inner_join_map_left {A B : Type} (ka : A -> option Sql.int)
    (kb : B -> option Sql.int) (g : A -> A) (left : list A) (right : list B) :
  (forall a, ka (g a) = ka a) ->
  Sql.inner_join ka kb (map g left) right
  = map (fun ab => (g (fst ab), snd ab)) (Sql.inner_join ka kb left right).
Proof.
  intros Hk. unfold Sql.inner_join.
  induction left as [|a left IH]; [reflexivity|].
  cbn [map flat_map]. rewrite map_app, IH, Hk, map_map. reflexivity.
Qed.

(** C8.  The valid column passes through.  Every row [join_tables] derives
    from a log row has that row's valid cell, and the base of every row
    [filter_late_logs] returns is a row of its input; and no stage reads the
    column: rewriting the valid cells by any function [f] before
    [join_tables], before [filter_late_logs] or before
    [calculate_experiment_final_scores] gives the same rows, or the same
    exception, with the valid cells rewritten by [f], and the same
    scores. *)
Theorem valid_passes_through `{Datetime.Session}
    (f : option bool -> option bool)
    (logs : list Log.row) (l : Log.row) (experiments : list Experiment.row)
    (metrics : list Metric.row) (data : list Joined.row) (hours : Z) :
  Forall (fun j => Joined.valid j = Log.valid l)
         (Etl.join_tables [l] experiments metrics)
  /\ Spec.when_returned (Etl.filter_late_logs data hours)
       (fun late => incl (map Late.base late) data)
  /\ Etl.join_tables (map (Log.map_valid f) logs) experiments metrics
     = map (Joined.map_valid f) (Etl.join_tables logs experiments metrics)
  /\ Etl.filter_late_logs (map (Joined.map_valid f) data) hours
     = Py.fmap (map (Late.map_base (Joined.map_valid f)))
         (Etl.filter_late_logs data hours)
  /\ (forall late : list (Late.row Joined.row),
        Etl.calculate_experiment_final_scores
          (map (Late.map_base (Joined.map_valid f)) late)
        = Etl.calculate_experiment_final_scores late).
Proof.
  split; [|split; [|split; [|split]]].
  - rewrite join_tables_single. apply Forall_forall. intros j Hj.
    apply in_flat_map in Hj. destruct Hj as [e [_ Hj]].
    apply in_map_iff in Hj. destruct Hj as [m [<- _]]. reflexivity.
  - unfold Spec.when_returned.
    destruct (Etl.filter_late_logs data hours) as [late|e] eqn:E; [|exact I].
    intros r Hr. apply in_map_iff in Hr. destruct Hr as [r' [<- Hr']].
    apply (filter_late_logs_In _ _ _ _ E) in Hr'.
    destruct Hr' as (r & Hr & Hw & _).
    rewrite (with_time_diff_base _ _ Hw). exact Hr.
  - unfold Etl.join_tables.
    rewrite (inner_join_map_left Log.expId Experiment.expId (Log.map_valid f))
      by reflexivity.
    rewrite (inner_join_map_left (fun le => Log.metricId (fst le))
               Metric.metricId
               (fun ab : Log.row * Experiment.row =>
                  (Log.map_valid f (fst ab), snd ab)))
      by reflexivity.
    rewrite !map_map. apply map_ext. intros [[l0 e] m]. reflexivity.
  - apply filter_late_logs_frame; reflexivity.
  - intros late.
    unfold Etl.calculate_experiment_final_scores, Sql.groupBy.
    rewrite !map_map. cbn [expId_col metricId_col value_col Late_ScoreColumns
      Joined_ScoreColumns Late.map_base Late.base Joined.map_valid
      Joined.expId Joined.metricId Joined.value].
    apply map_ext. intros k. f_equal.
    + f_equal. induction late as [|r rs IH];
        [reflexivity|]. cbn [map filter Late.map_base Late.base].
      destruct (Sql.key_eqb _ k); cbn [map]; rewrite IH; reflexivity.
    + f_equal. induction late as [|r rs IH];
        [reflexivity|]. cbn [map filter Late.map_base Late.base].
      destruct (Sql.key_eqb _ k); cbn [map]; rewrite IH; reflexivity.
Qed.

(** C9.  [get_spark] asks the engine for a session once.  If the engine
    answers, [get_spark] returns the session and prints nothing.  If the
    engine raises, [get_spark] raises the same exception to its caller: an
    instance of [Exception], which an engine that cannot start raises, after
    one line naming it has been printed; any other exception untouched.  In
    every case the engine is left as that single request left it: there is no
    second attempt. *)
Theorem get_spark_reraises (Engine SparkSession : Type)
    (getOrCreate : string -> string -> Engine -> Py.outcome SparkSession * Engine)
    (master app_name : string) (w : Py.world Engine) :
  Etl.get_spark Engine SparkSession getOrCreate master app_name w
  = match getOrCreate master app_name (Py.engine w) with
    | (Py.Return spark, st) => (Py.Return spark, Py.mkWorld st (Py.stdout w))
    | (Py.Raise e, st) =>
        (Py.Raise e,
         Py.mkWorld st
           (if Py.is_Exception e
            then Py.stdout w
                 ++ [("Error initializing Spark session: " ++ Py.str e)%string]
            else Py.stdout w))
    end.
Proof.
  unfold Etl.get_spark, Py.try_except_Exception, Py.bind, Py.call, Py.ret,
    Py.print, Py.raise.
  destruct (getOrCreate master app_name (Py.engine w)) as [[spark|e] st];
    cbn; [reflexivity|].
  destruct (Py.is_Exception e); reflexivity.
Qed.

(** An engine that fails at the first request and would answer the second:
    [get_spark] raises the failure, having printed one line and asked
    once. *)
Example get_spark_no_retry :
  Etl.get_spark nat string Scenario.flaky "local[1]" "ML Logs Transformer"
    (Py.mkWorld 0%nat [])
  = (Py.Raise Scenario.cannot_start,
     Py.mkWorld 1%nat
       ["Error initializing Spark session: Could not parse Master URL"%string]).
Proof. reflexivity. Qed.

Lemma load_metrics_returns (Engine SparkSession : Type)
    (getOrCreate : string -> string -> Engine -> Py.outcome SparkSession * Engine)
    (w : Py.world Engine) (spark : SparkSession) (st : Engine) :
  getOrCreate "local[1]"%string "ML Logs Transformer"%string (Py.engine w)
  = (Py.Return spark, st) ->
  fst (Etl.load_metrics Engine SparkSession getOrCreate w)
  = Py.Return Etl.metrics.
Proof.
  intros Hok.
  unfold Etl.load_metrics, Etl.get_spark, Py.try_except_Exception, Py.bind,
    Py.call, Py.ret.
  rewrite Hok. reflexivity.
Qed.

Lemma filter_filter_implied {A : Type} (p q : A -> bool) (l : list A) :
  (forall a, q a = true -> p a = true) ->
  filter q (filter p l) = filter q l.
Proof.
  intros Hpq. induction l as [|a l IH]; [reflexivity|]. simpl.
  destruct (p a) eqn:Hp; simpl.
  - rewrite IH. reflexivity.
  - destruct (q a) eqn:Hq; [|exact IH]. rewrite (Hpq a Hq) in Hp. discriminate.
Qed.

Lemma gt_threshold_antitone a h1 h2 :
  Sql.compareDoubles h1 h2 <> Gt ->
  Sql.is_true (Sql.gt a (Some h2)) = true ->
  Sql.is_true (Sql.gt a (Some h1)) = true.
Proof.
  intros Hle H2. apply is_true_gt in H2. destruct H2 as [d [-> Hd]].
  apply is_true_gt. exists d. split; [reflexivity|].
  apply compareDoubles_gt_le_trans with (h2 := h2); assumption.
Qed.

(** The rows returned with a threshold are those of the rows returned with a
    lower one that pass the higher test; what a text raises does not depend
    on the threshold. *)
Lemma filter_late_logs_thresholds `{Datetime.Session} {R : Type}
    `{TimeColumns R} (data : list R) (h1 h2 : Z) :
  h1 <= h2 ->
  match Etl.filter_late_logs data h1, Etl.filter_late_logs data h2 with
  | Py.Return late1, Py.Return late2 =>
      late2
      = filter
          (fun r =>
             Sql.is_true
               (Sql.gt (Late.time_diff_hours r) (Some (Sql.double_of_Z h2))))
          late1
  | Py.Raise e1, Py.Raise e2 => e1 = e2
  | _, _ => False
  end.
Proof.
  intros Hle.
  pose proof (double_of_Z_mono h1 h2 Hle) as Hc.
  unfold Etl.filter_late_logs, Py.and_then.
  destruct (Py.for_each Etl.with_time_diff data) as [all|e]; [|reflexivity].
  assert (E : filter
                (fun r =>
                   Sql.is_true
                     (Sql.gt (Late.time_diff_hours r)
                        (Some (Sql.double_of_Z h2))))
                all
              = filter
                  (fun r =>
                     Sql.is_true
                       (Sql.gt (Late.time_diff_hours r)
                          (Some (Sql.double_of_Z h2))))
                  (filter
                     (fun r =>
                        Sql.is_true
                          (Sql.gt (Late.time_diff_hours r)
                             (Some (Sql.double_of_Z h1))))
                     all)).
  { symmetry. apply filter_filter_implied.
    intros r. apply gt_threshold_antitone. exact Hc. }
  exact E.
Qed.

(** C10.  The filter is antitone in its threshold.  For thresholds
    [h1 <= h2] the two calls raise together, the same exception, or return
    together; and then each row returned with [h2] is returned with [h1]:
    indeed the rows returned with [h2] are those of the rows returned with
    [h1] that pass the test for [h2].  The thresholds are compared as the
    engine compares them, cast to double; the cast is monotone. *)
Theorem filter_late_logs_antitone `{Datetime.Session} {R : Type}
    `{TimeColumns R} (data : list R) (h1 h2 : Z) :
  h1 <= h2 ->
  match Etl.filter_late_logs data h1, Etl.filter_late_logs data h2 with
  | Py.Return late1, Py.Return late2 =>
      incl late2 late1
      /\ late2
         = filter
             (fun r =>
                Sql.is_true
                  (Sql.gt (Late.time_diff_hours r)
                     (Some (Sql.double_of_Z h2))))
             late1
  | Py.Raise e1, Py.Raise e2 => e1 = e2
  | _, _ => False
  end.
Proof.
  intros Hle. pose proof (filter_late_logs_thresholds data h1 h2 Hle) as Hf.
  destruct (Etl.filter_late_logs data h1) as [late1|e1],
           (Etl.filter_late_logs data h2) as [late2|e2]; try exact Hf.
  split; [|exact Hf]. rewrite Hf. apply incl_filter.
Qed.

Lemma filter_late_logs_antitone_witness :
  match
    Etl.filter_late_logs (H := Scenario.utc)
      [Scenario.lag_exactly_1h; Scenario.lag_1h_1s] (-2),
    Etl.filter_late_logs (H := Scenario.utc)
      [Scenario.lag_exactly_1h; Scenario.lag_1h_1s] 1
  with
  | Py.Return late1, Py.Return late2 =>
      incl late2 late1
      /\ late2
         = filter
             (fun r =>
                Sql.is_true
                  (Sql.gt (Late.time_diff_hours r)
                     (Some (Sql.double_of_Z 1))))
             late1
  | Py.Raise e1, Py.Raise e2 => e1 = e2
  | _, _ => False
  end.
Proof.
  apply (filter_late_logs_antitone (H := Scenario.utc)
           [Scenario.lag_exactly_1h; Scenario.lag_1h_1s] (-2) 1).
  lia.
Defined.

(** * Further properties of the pipeline *)

(** ** [join_tables] *)

(** X1.  The rows of [join_tables] are exactly the selections of a log row,
    an experiments row with the same expId and a metrics row with the same
    metricId, the shared keys not null. *)
Theorem join_tables_rows logs experiments metrics (j : Joined.row) :
  In j (Etl.join_tables logs experiments metrics) <->
  exists l e m,
    In l logs /\ In e experiments /\ In m metrics
    /\ (exists k, Log.expId l = Some k /\ Experiment.expId e = Some k)
    /\ (exists k, Log.metricId l = Some k /\ Metric.metricId m = Some k)
    /\ j = Etl.select_joined (l, e, m).
Proof. apply join_tables_In. Qed.

(** X2.  No row of [join_tables] has a null key: its expId is a key of the
    logs and of the experiments table, its metricId a key of the logs and of
    the metrics table, and neither is null. *)
Theorem join_tables_keys_present logs experiments metrics :
  Forall
    (fun j =>
       Joined.expId j <> None /\ Joined.metricId j <> None
       /\ In (Joined.expId j) (map Log.expId logs)
       /\ In (Joined.expId j) (map Experiment.expId experiments)
       /\ In (Joined.metricId j) (map Log.metricId logs)
       /\ In (Joined.metricId j) (map Metric.metricId metrics))
    (Etl.join_tables logs experiments metrics).
Proof.
  apply Forall_forall. intros j Hj. apply join_tables_In in Hj.
  destruct Hj as [l [e [m [Hl [He [Hm [[k [Hk1 Hk2]] [[k' [Hk1' Hk2']] ->]]]]]]]].
  cbn [Etl.select_joined Joined.expId Joined.metricId].
  repeat split.
  - congruence.
  - congruence.
  - apply in_map. exact Hl.
  - rewrite Hk1, <- Hk2. apply in_map. exact He.
  - apply in_map. exact Hl.
  - rewrite Hk1', <- Hk2'. apply in_map. exact Hm.
Qed.

Lemma matching_unique {B : Type} (kb : B -> option Sql.int)
    (k : option Sql.int) (right : list B) :
  NoDup (map kb right) -> (List.length (Sql.matching kb k right) <= 1)%nat.
Proof.
  induction right as [|b right IH]; intros Hnd; [simpl; lia|].
  cbn [map] in Hnd. apply NoDup_cons_iff in Hnd. destruct Hnd as [Hnotin Hnd].
  unfold Sql.matching in *. cbn [filter].
  destruct (Sql.is_true (Sql.eq_int k (kb b))) eqn:Hb; [|auto].
  assert (Hnil : filter (fun b0 => Sql.is_true (Sql.eq_int k (kb b0))) right = []).
  { destruct (filter _ right) as [|b' rest] eqn:Hf; [reflexivity|exfalso].
    assert (Hb' : In b' (Sql.matching kb k right))
      by (unfold Sql.matching; rewrite Hf; left; reflexivity).
    apply matching_In in Hb'. destruct Hb' as [Hin [x [Hk Hx]]].
    apply Hnotin. subst k.
    destruct (kb b) as [y|]; simpl in Hb; [|discriminate].
    destruct (Z.eqb_spec x y) as [->|]; [|discriminate].
    rewrite <- Hx. apply in_map. exact Hin. }
  rewrite Hnil. simpl. lia.
Qed.

(** X3.  With unique keys on the right there is no fan-out: when no expId
    occurs twice in the experiments table and no metricId twice in the
    metrics table, every log row gives at most one joined row, and the
    output has at most as many rows as the logs. *)
Theorem join_tables_unique_keys logs experiments metrics :
  NoDup (map Experiment.expId experiments) ->
  NoDup (map Metric.metricId metrics) ->
  Forall (fun l => (List.length (Etl.join_tables [l] experiments metrics) <= 1)%nat)
         logs
  /\ (List.length (Etl.join_tables logs experiments metrics)
      <= List.length logs)%nat.
Proof.
  intros He Hm.
  assert (Hone : forall l,
             (List.length (Etl.join_tables [l] experiments metrics) <= 1)%nat).
  { intros l. rewrite join_tables_single_length.
    pose proof (matching_unique Experiment.expId (Log.expId l) experiments He).
    pose proof (matching_unique Metric.metricId (Log.metricId l) metrics Hm).
    nia. }
  split; [apply Forall_forall; intros l _; apply Hone|].
  induction logs as [|l logs IH]; [simpl; lia|].
  change (l :: logs) with ([l] ++ logs).
  rewrite join_tables_app, length_app. specialize (Hone l). simpl. lia.
Qed.

Lemma join_tables_unique_keys_witness :
  Forall (fun l => (List.length
                      (Etl.join_tables [l] Scenario.experiments Etl.metrics)
                    <= 1)%nat)
         [Scenario.log_a; Scenario.log_b; Scenario.log_orphan]
  /\ (List.length
        (Etl.join_tables [Scenario.log_a; Scenario.log_b; Scenario.log_orphan]
           Scenario.experiments Etl.metrics)
      <= List.length [Scenario.log_a; Scenario.log_b; Scenario.log_orphan])%nat.
Proof.
  apply (join_tables_unique_keys
           [Scenario.log_a; Scenario.log_b; Scenario.log_orphan]
           Scenario.experiments Etl.metrics).
  - simpl. repeat constructor; simpl; intuition discriminate.
  - simpl. repeat constructor; simpl; intuition discriminate.
Defined.


(** X5.  An empty table on any side empties the join. *)
Theorem join_tables_empty logs experiments metrics :
  Etl.join_tables [] experiments metrics = []
  /\ Etl.join_tables logs [] metrics = []
  /\ Etl.join_tables logs experiments [] = [].
Proof.
  split; [reflexivity|]. split.
  - induction logs as [|l logs IH]; [reflexivity|].
    change (l :: logs) with ([l] ++ logs).
    rewrite join_tables_app, IH, join_tables_single. reflexivity.
  - induction logs as [|l logs IH]; [reflexivity|].
    change (l :: logs) with ([l] ++ logs).
    rewrite join_tables_app, IH, join_tables_single, app_nil_r.
    induction (Sql.matching Experiment.expId (Log.expId l) experiments);
      [reflexivity|assumption].
Qed.

(** ** [calculate_experiment_final_scores] *)

Lemma scores_extrema {R : Type} `{ScoreColumns R} (data : list R) (s : Score.row) :
  In s (Etl.calculate_experiment_final_scores data) ->
  Spec.is_max_of (map value_col (Etl.group_rows data (Score.key s)))
    (Score.maxValue s)
  /\ Spec.is_min_of (map value_col (Etl.group_rows data (Score.key s)))
       (Score.minValue s).
Proof.
  intros Hs. apply scores_In in Hs. destruct Hs as [_ [-> ->]].
  split; [apply max_is_max_of|apply min_is_min_of].
Qed.

(** X6.  In every score row minValue is at most maxValue in the engine's
    order, and the two are null together. *)
Theorem scores_min_le_max {R : Type} `{ScoreColumns R} (data : list R) :
  Forall
    (fun s =>
       match Score.minValue s, Score.maxValue s with
       | Some mn, Some mx => Sql.compareFloats mn mx <> Gt
       | None, None => True
       | _, _ => False
       end)
    (Etl.calculate_experiment_final_scores data).
Proof.
  apply Forall_forall. intros s Hs. apply scores_extrema in Hs.
  destruct Hs as [Hmax Hmin]. unfold Spec.is_max_of, Spec.is_min_of in *.
  destruct (Score.minValue s) as [mn|], (Score.maxValue s) as [mx|].
  - destruct Hmax as [Hin _], Hmin as [_ Hlb].
    rewrite Forall_forall in Hlb. exact (Hlb _ Hin).
  - destruct Hmin as [Hin _]. rewrite Forall_forall in Hmax.
    specialize (Hmax _ Hin). discriminate.
  - destruct Hmax as [Hin _]. rewrite Forall_forall in Hmin.
    specialize (Hmin _ Hin). discriminate.
  - exact I.
Qed.

Lemma compareDoubles_nan_le y :
  Sql.compareDoubles S754_nan y <> Gt -> y = S754_nan.
Proof.
  rewrite compareDoubles_SFcompare. destruct y; simpl; congruence.
Qed.

(** X7.  NaN is the greatest value of the aggregates: the maxValue of a group
    is NaN exactly when one of its values is, and its minValue is NaN only
    when every value of the group that is not null is NaN. *)
Theorem scores_nan {R : Type} `{ScoreColumns R} (data : list R) :
  Forall
    (fun s =>
       let vs := map value_col (Etl.group_rows data (Score.key s)) in
       (Score.maxValue s = Some S754_nan <-> In (Some S754_nan) vs)
       /\ (Score.minValue s = Some S754_nan ->
           Forall (fun v => v = None \/ v = Some S754_nan) vs))
    (Etl.calculate_experiment_final_scores data).
Proof.
  apply Forall_forall. intros s Hs. apply scores_extrema in Hs.
  destruct Hs as [Hmax Hmin]. cbv zeta.
  unfold Spec.is_max_of, Spec.is_min_of in *. split; [split|].
  - intros E. rewrite E in Hmax. apply Hmax.
  - intros Hin. destruct (Score.maxValue s) as [mx|].
    + destruct Hmax as [_ Hub]. rewrite Forall_forall in Hub.
      specialize (Hub _ Hin). cbv beta iota in Hub.
      apply compareDoubles_nan_le in Hub. rewrite Hub. reflexivity.
    + rewrite Forall_forall in Hmax. specialize (Hmax _ Hin). discriminate.
  - intros E. rewrite E in Hmin. destruct Hmin as [_ Hlb].
    rewrite Forall_forall in *. intros [y|] Hy; [right|left; reflexivity].
    specialize (Hlb _ Hy). cbv beta iota in Hlb.
    apply compareDoubles_nan_le in Hlb. rewrite Hlb. reflexivity.
Qed.

Lemma is_max_of_same vs m m' :
  Spec.is_max_of vs m -> Spec.is_max_of vs m' -> Spec.same_cell m m'.
Proof.
  unfold Spec.is_max_of, Spec.same_cell.
  destruct m as [x|], m' as [y|]; rewrite ?Forall_forall.
  - intros [Hx Hbx] [Hy Hby].
    pose proof (Hbx _ Hy) as H1. pose proof (Hby _ Hx) as H2. cbn in H1, H2.
    unfold Sql.compareFloats in *. rewrite (compareDoubles_antisym x y) in H1.
    destruct (Sql.compareDoubles x y); cbn in *; congruence.
  - intros [Hx _] Hn. specialize (Hn _ Hx). discriminate.
  - intros Hn [Hy _]. specialize (Hn _ Hy). discriminate.
  - auto.
Qed.

Lemma is_min_of_same vs m m' :
  Spec.is_min_of vs m -> Spec.is_min_of vs m' -> Spec.same_cell m m'.
Proof.
  unfold Spec.is_min_of, Spec.same_cell.
  destruct m as [x|], m' as [y|]; rewrite ?Forall_forall.
  - intros [Hx Hbx] [Hy Hby].
    pose proof (Hbx _ Hy) as H1. pose proof (Hby _ Hx) as H2. cbn in H1, H2.
    unfold Sql.compareFloats in *. rewrite (compareDoubles_antisym x y) in H2.
    destruct (Sql.compareDoubles x y); cbn in *; congruence.
  - intros [Hx _] Hn. specialize (Hn _ Hx). discriminate.
  - intros Hn [Hy _]. specialize (Hn _ Hy). discriminate.
  - auto.
Qed.

Lemma is_max_of_ext vs vs' m :
  (forall v, In v vs <-> In v vs') ->
  Spec.is_max_of vs m -> Spec.is_max_of vs' m.
Proof.
  intros Hin. unfold Spec.is_max_of. destruct m as [x|];
    rewrite ?Forall_forall.
  - intros [Hx Hb]. split; [apply Hin; exact Hx|].
    intros v Hv. apply Hb, Hin, Hv.
  - intros Hn v Hv. apply Hn, Hin, Hv.
Qed.

Lemma is_min_of_ext vs vs' m :
  (forall v, In v vs <-> In v vs') ->
  Spec.is_min_of vs m -> Spec.is_min_of vs' m.
Proof.
  intros Hin. unfold Spec.is_min_of. destruct m as [x|];
    rewrite ?Forall_forall.
  - intros [Hx Hb]. split; [apply Hin; exact Hx|].
    intros v Hv. apply Hb, Hin, Hv.
  - intros Hn v Hv. apply Hn, Hin, Hv.
Qed.

Lemma group_values_perm {R : Type} `{ScoreColumns R} (data data' : list R) k v :
  Permutation data data' ->
  In v (map value_col (Etl.group_rows data k)) ->
  In v (map value_col (Etl.group_rows data' k)).
Proof.
  intros Hp Hv. apply in_map_iff in Hv. destruct Hv as [r [<- Hr]].
  apply in_map. unfold Etl.group_rows in *. apply filter_In in Hr.
  apply filter_In. split; [|apply Hr].
  apply (Permutation_in _ Hp). apply Hr.
Qed.

(** X8.  The order of the rows does not matter to the scores: for a
    permutation of the table the output has the same keys, and for each key
    extrema the engine cannot tell apart (equal, except that 0.0 and -0.0, or
    two NaN, may stand for one another). *)
Theorem scores_permutation {R : Type} `{ScoreColumns R} (data data' : list R) :
  Permutation data data' ->
  Permutation (map Score.key (Etl.calculate_experiment_final_scores data))
              (map Score.key (Etl.calculate_experiment_final_scores data'))
  /\ Forall
       (fun s =>
          exists s',
            In s' (Etl.calculate_experiment_final_scores data')
            /\ Score.key s' = Score.key s
            /\ Spec.same_cell (Score.maxValue s) (Score.maxValue s')
            /\ Spec.same_cell (Score.minValue s) (Score.minValue s'))
       (Etl.calculate_experiment_final_scores data).
Proof.
  intros Hp. split.
  - rewrite !scores_keys. apply NoDup_Permutation; try apply NoDup_nodup.
    intros k. rewrite !nodup_In. split; apply Permutation_in.
    + apply Permutation_map. exact Hp.
    + apply Permutation_map. apply Permutation_sym. exact Hp.
  - apply Forall_forall. intros s Hs.
    pose proof (scores_extrema data s Hs) as [Hmax Hmin].
    apply scores_In in Hs. destruct Hs as [Hk _].
    set (vs' := map value_col (Etl.group_rows data' (Score.key s))).
    exists (Score.mk (fst (Score.key s)) (snd (Score.key s))
              (Sql.max vs') (Sql.min vs')).
    assert (Hext : forall v,
               In v (map value_col (Etl.group_rows data (Score.key s)))
               <-> In v vs').
    { intros v. split; apply group_values_perm;
        [exact Hp|apply Permutation_sym; exact Hp]. }
    split; [|split; [reflexivity|split]].
    + apply scores_In. cbn [Score.key Score.expId Score.metricId
                              Score.maxValue Score.minValue fst snd].
      split; [|split; reflexivity].
      apply (Permutation_in _ (Permutation_map _ Hp)). exact Hk.
    + cbn [Score.maxValue]. apply (is_max_of_same vs').
      * apply (is_max_of_ext _ _ _ Hext). exact Hmax.
      * apply max_is_max_of.
    + cbn [Score.minValue]. apply (is_min_of_same vs').
      * apply (is_min_of_ext _ _ _ Hext). exact Hmin.
      * apply min_is_min_of.
Qed.

Lemma scores_permutation_witness :
  Permutation
    (map Score.key
       (Etl.calculate_experiment_final_scores Scenario.with_null_group))
    (map Score.key
       (Etl.calculate_experiment_final_scores (rev Scenario.with_null_group)))
  /\ Forall
       (fun s =>
          exists s',
            In s' (Etl.calculate_experiment_final_scores
                     (rev Scenario.with_null_group))
            /\ Score.key s' = Score.key s
            /\ Spec.same_cell (Score.maxValue s) (Score.maxValue s')
            /\ Spec.same_cell (Score.minValue s) (Score.minValue s'))
       (Etl.calculate_experiment_final_scores Scenario.with_null_group).
Proof.
  apply (scores_permutation Scenario.with_null_group
           (rev Scenario.with_null_group)).
  apply Permutation_rev.
Defined.

(** ** The stages composed *)

(** X9.  Every score row of the three stages in sequence, when no text makes
    the filter raise, has a key that is not null and comes from the tables:
    both its expId and its metricId are those of one log row, its expId a
    key of the experiments table and its metricId a key of the metrics
    table. *)
Theorem pipeline_score_keys `{Datetime.Session} logs experiments metrics
    (hours : Z) :
  Spec.when_returned
    (Py.fmap Etl.calculate_experiment_final_scores
       (Etl.filter_late_logs
          (Etl.join_tables logs experiments metrics) hours))
    (Forall
       (fun s =>
          exists e m,
            Score.expId s = Some e /\ Score.metricId s = Some m
            /\ In (Some e, Some m)
                  (map (fun l => (Log.expId l, Log.metricId l)) logs)
            /\ In (Some e) (map Experiment.expId experiments)
            /\ In (Some m) (map Metric.metricId metrics))).
Proof.
  unfold Spec.when_returned, Py.fmap, Py.and_then.
  destruct (Etl.filter_late_logs (Etl.join_tables logs experiments metrics)
              hours) as [late|e0] eqn:E; [|exact I].
  apply Forall_forall. intros s Hs. apply scores_In in Hs.
  destruct Hs as [Hk _]. apply in_map_iff in Hk.
  destruct Hk as [r' [Hkey Hr']].
  apply (filter_late_logs_In _ _ _ _ E) in Hr'.
  destruct Hr' as (j & Hj & Hw & _).
  pose proof (with_time_diff_base _ _ Hw) as Hb.
  apply join_tables_In in Hj.
  destruct Hj as [l [e [m [Hl [He [Hm [[k [Hk1 Hk2]] [[k' [Hk1' Hk2']] Ej]]]]]]]].
  cbn in Hkey. rewrite Hb, Ej in Hkey. cbn in Hkey.
  injection Hkey as He' Hm'.
  exists k, k'. repeat split.
  - congruence.
  - congruence.
  - rewrite <- Hk1, <- Hk1'.
    apply (in_map (fun l => (Log.expId l, Log.metricId l))). exact Hl.
  - rewrite <- Hk2. apply in_map. exact He.
  - rewrite <- Hk2'. apply in_map. exact Hm.
Qed.

(** ** The loaders *)

(** X10.  The loaders read only once a session is there.  When the engine
    refuses the session, [load_logs], [load_experiments] and [load_metrics]
    raise its exception without calling a reader, after the line of
    [get_spark] for an [Exception].  When it gives one, [load_metrics]
    returns the constant table, and the other two hand the reader the path
    and the fixed schema (for the experiments, with the header flag set) and
    return or raise what the reader does, printing nothing: a failure of the
    reader is neither caught nor logged. *)
Theorem loaders_outcome (Engine SparkSession : Type)
    (getOrCreate : string -> string -> Engine -> Py.outcome SparkSession * Engine)
    (read_json : SparkSession -> string -> Sql.schema ->
                 Engine -> Py.outcome (list Log.row) * Engine)
    (read_csv : SparkSession -> string -> Sql.schema -> bool ->
                Engine -> Py.outcome (list Experiment.row) * Engine)
    (path : string) (w : Py.world Engine) :
  let session :=
    getOrCreate "local[1]"%string "ML Logs Transformer"%string (Py.engine w) in
  let refused (e : Py.exn) (st : Engine) :=
    Py.mkWorld st
      (if Py.is_Exception e
       then Py.stdout w
            ++ [("Error initializing Spark session: " ++ Py.str e)%string]
       else Py.stdout w) in
  Etl.load_logs Engine SparkSession getOrCreate read_json path w
  = match session with
    | (Py.Return spark, st) =>
        let (r, st') := read_json spark path Etl.logs_schema st in
        (r, Py.mkWorld st' (Py.stdout w))
    | (Py.Raise e, st) => (Py.Raise e, refused e st)
    end
  /\ Etl.load_experiments Engine SparkSession getOrCreate read_csv path w
     = match session with
       | (Py.Return spark, st) =>
           let (r, st') :=
             read_csv spark path Etl.experiments_schema true st in
           (r, Py.mkWorld st' (Py.stdout w))
       | (Py.Raise e, st) => (Py.Raise e, refused e st)
       end
  /\ Etl.load_metrics Engine SparkSession getOrCreate w
     = match session with
       | (Py.Return _, st) =>
           (Py.Return Etl.metrics, Py.mkWorld st (Py.stdout w))
       | (Py.Raise e, st) => (Py.Raise e, refused e st)
       end.
Proof.
  cbv zeta.
  unfold Etl.load_logs, Etl.load_experiments, Etl.load_metrics, Etl.get_spark,
    Py.try_except_Exception, Py.bind, Py.call, Py.ret, Py.print, Py.raise.
  destruct (getOrCreate _ _ (Py.engine w)) as [[spark|e] st]; cbn.
  - repeat split; reflexivity.
  - destruct (Py.is_Exception e); repeat split; reflexivity.
Qed.

(** ** [save] *)

Lemma partition_value_inj v v' :
  Sql.partition_value v = Sql.partition_value v' -> v = v'.
Proof.
  assert (Hnum : forall z,
             DecimalString.NilZero.int_of_string
               (Sql.partition_value (Some z)) = Some (Z.to_int z))
    by (intros [|p|p]; apply DecimalString.NilZero.isi; intros [= E];
        exact (DecimalPos.Unsigned.to_uint_nonnil p E)).
  assert (Hnull : DecimalString.NilZero.int_of_string
                    (Sql.partition_value None) = None) by reflexivity.
  destruct v as [z|], v' as [z'|]; intros E.
  - f_equal. apply DecimalZ.to_int_inj.
    pose proof (Hnum z) as H1. rewrite E, Hnum in H1. congruence.
  - pose proof (Hnum z) as H1. rewrite E, Hnull in H1. discriminate.
  - pose proof (Hnum z') as H1. rewrite <- E, Hnull in H1. discriminate.
  - reflexivity.
Qed.

Lemma string_app_inv_head (p a b : string) :
  (p ++ a)%string = (p ++ b)%string -> a = b.
Proof.
  induction p as [|c p IH]; simpl; intros E; [exact E|].
  injection E as E. apply IH. exact E.
Qed.

Lemma partition_dir_inj col v v' :
  Sql.partition_dir col v = Sql.partition_dir col v' -> v = v'.
Proof.
  unfold Sql.partition_dir. intros E.
  apply string_app_inv_head in E. apply string_app_inv_head in E.
  apply partition_value_inj. exact E.
Qed.

Lemma filter_disjoint_app {A : Type} (p q : A -> bool) (l : list A) :
  (forall a, p a = true -> q a = false) ->
  Permutation (filter p l ++ filter q l) (filter (fun a => p a || q a) l).
Proof.
  intros Hd. induction l as [|a l IH]; [constructor|]. simpl.
  destruct (p a) eqn:Hp; simpl.
  - rewrite (Hd a Hp). simpl. constructor. exact IH.
  - destruct (q a); simpl; [|exact IH].
    apply Permutation_sym, Permutation_cons_app, Permutation_sym. exact IH.
Qed.

Lemma partition_concat {R : Type} (kf : R -> option Sql.int) (data : list R)
    (vs : list (option Sql.int)) :
  NoDup vs ->
  Permutation
    (List.concat
       (map (fun v =>
               filter (fun r => if Sql.int_eq_dec (kf r) v then true else false)
                      data) vs))
    (filter (fun r => if in_dec Sql.int_eq_dec (kf r) vs then true else false)
            data).
Proof.
  induction vs as [|v vs IH]; intros Hnd.
  - simpl. induction data as [|r data IHd]; [constructor|exact IHd].
  - apply NoDup_cons_iff in Hnd. destruct Hnd as [Hv Hnd].
    cbn [map List.concat]. rewrite (IH Hnd).
    rewrite filter_disjoint_app.
    + apply Permutation_refl'. apply filter_ext. intros r.
      destruct (Sql.int_eq_dec (kf r) v) as [E|Hne];
        destruct (in_dec Sql.int_eq_dec (kf r) (v :: vs)) as [Hin|Hnin];
        destruct (in_dec Sql.int_eq_dec (kf r) vs) as [Hin'|Hnin'];
        simpl in *; try reflexivity; exfalso;
        intuition (subst; auto; congruence).
    + intros r Hr. destruct (Sql.int_eq_dec (kf r) v) as [->|]; [|discriminate].
      destruct (in_dec Sql.int_eq_dec v vs); [tauto|reflexivity].
Qed.

Lemma filter_all {A : Type} (p : A -> bool) (l : list A) :
  (forall a, In a l -> p a = true) -> filter p l = l.
Proof.
  induction l as [|a l IH]; intros Hp; [reflexivity|]. simpl.
  rewrite (Hp a (or_introl eq_refl)). f_equal. apply IH.
  intros b Hb. apply Hp. right. exact Hb.
Qed.

Lemma partitionBy_lossless {R : Type} (col : string)
    (kf : R -> option Sql.int) (data : list R) :
  Permutation (List.concat (map snd (Sql.partitionBy col kf data))) data.
Proof.
  unfold Sql.partitionBy. rewrite map_map. cbn [snd].
  rewrite partition_concat by apply NoDup_nodup.
  apply Permutation_refl'. apply filter_all. intros r Hr.
  destruct (in_dec Sql.int_eq_dec (kf r) _) as [Hin|Hnin]; [reflexivity|].
  exfalso. apply Hnin. apply nodup_In. apply in_map. exact Hr.
Qed.

(** X11.  [save] hands the writer, once, the table laid out by metricId, and
    the layout loses and repeats nothing: every directory is that of one
    metricId (or of the null one), is not empty and holds only rows of that
    metricId, and the directories together hold the rows of the table, each
    as often as the table does.  What the writer raises, [save] raises. *)
Theorem save_layout (Engine R : Type) (C : MetricIdColumn R)
    (parquet : string -> list (string * list R) -> Engine ->
               Py.outcome unit * Engine)
    (data : list R) (output_path : string) (w : Py.world Engine) :
  let layout := Sql.partitionBy "metricId" metricId_of data in
  Etl.save Engine R parquet data output_path w
  = (let (r, st) := parquet output_path layout (Py.engine w) in
     (r, Py.mkWorld st (Py.stdout w)))
  /\ Permutation (List.concat (map snd layout)) data
  /\ Forall
       (fun d =>
          exists v,
            fst d = Sql.partition_dir "metricId" v
            /\ snd d <> []
            /\ Forall (fun r => metricId_of r = v) (snd d))
       layout.
Proof.
  cbv zeta. split; [reflexivity|]. split; [apply partitionBy_lossless|].
  apply Forall_forall. intros [dir rows] Hd. unfold Sql.partitionBy in Hd.
  apply in_map_iff in Hd. destruct Hd as [v [[= <- <-] Hv]].
  exists v. cbn [fst snd]. split; [reflexivity|]. split.
  - apply nodup_In, in_map_iff in Hv. destruct Hv as [r [Hr Hin]].
    intros Hnil.
    assert (Hrin : In r (filter
                           (fun r0 => if Sql.int_eq_dec (metricId_of r0) v
                                      then true else false) data)).
    { apply filter_In. split; [exact Hin|].
      destruct (Sql.int_eq_dec (metricId_of r) v); [reflexivity|contradiction]. }
    rewrite Hnil in Hrin. exact Hrin.
  - apply Forall_forall. intros r Hr. apply filter_In in Hr.
    destruct Hr as [_ Hr].
    destruct (Sql.int_eq_dec (metricId_of r) v); [assumption|discriminate].
Qed.

Lemma NoDup_map_injective {A B : Type} (f : A -> B) (l : list A) :
  (forall a a', f a = f a' -> a = a') -> NoDup l -> NoDup (map f l).
Proof.
  intros Hf Hnd. induction Hnd as [|a l Hnotin Hnd IH]; simpl; constructor.
  - intros Hin. apply in_map_iff in Hin. destruct Hin as [a' [E Ha']].
    apply Hf in E. subst a'. contradiction.
  - exact IH.
Qed.

(** X12.  [save] makes one directory per distinct metricId: the directory
    names are pairwise distinct, as many as the distinct values of the
    column, and two values never share a name (the null value has the
    default directory to itself). *)
Theorem save_directories (R : Type) (C : MetricIdColumn R) (data : list R) :
  let layout := Sql.partitionBy "metricId" metricId_of data in
  NoDup (map fst layout)
  /\ List.length layout
     = List.length (nodup Sql.int_eq_dec (map metricId_of data))
  /\ (forall v v',
        Sql.partition_dir "metricId" v = Sql.partition_dir "metricId" v' <->
        v = v').
Proof.
  cbv zeta. unfold Sql.partitionBy. rewrite map_map, length_map. cbn [fst].
  split; [|split; [reflexivity|]].
  - apply NoDup_map_injective; [|apply NoDup_nodup].
    intros v v'. apply partition_dir_inj.
  - intros v v'. split; [apply partition_dir_inj|intros ->; reflexivity].
Qed.

(** ** [filter_late_logs] *)

(** X15.  A row that the engine reads as ingested at or before its creation
    is never late: whatever the table, for a threshold of zero or more hours
    no table [filter_late_logs] returns holds it.  The two instants are the
    engine's own readings of the cells, in its session's zone. *)
Theorem filter_late_logs_not_after `{Datetime.Session} {R : Type}
    `{TimeColumns R} (data : list R) (hours : Z) (r : R)
    (tc ti : Datetime.timestamp) :
  Datetime.to_timestamp (createdAt_col r) Datetime.pattern
  = Py.Return (Some tc) ->
  Datetime.to_timestamp (ingestedAt_col r) Datetime.pattern
  = Py.Return (Some ti) ->
  ti <= tc -> 0 <= hours ->
  Spec.when_returned (Etl.filter_late_logs data hours)
    (fun late => ~ Spec.retained late r).
Proof.
  intros Hc Hi Hle Hh. unfold Spec.when_returned.
  destruct (Etl.filter_late_logs data hours) as [late|e] eqn:E; [|exact I].
  intros Hret. apply (retained_iff _ _ _ _ E) in Hret.
  destruct Hret as [_ (tc' & ti' & Hc' & Hi' & Hlt)].
  assert (tc' = tc) by congruence. assert (ti' = ti) by congruence.
  subst tc' ti'.
  pose proof (Z.quot_le_mono ti tc 1000000 ltac:(lia) Hle). lia.
Qed.

Lemma filter_late_logs_not_after_witness :
  Spec.when_returned
    (Etl.filter_late_logs (H := Scenario.utc)
       [Scenario.timed "2024-01-01T05:00:00" "2024-01-01T00:00:00"] 0)
    (fun late =>
       ~ Spec.retained late
           (Scenario.timed "2024-01-01T05:00:00" "2024-01-01T00:00:00")).
Proof.
  apply (filter_late_logs_not_after (H := Scenario.utc)
           [Scenario.timed "2024-01-01T05:00:00" "2024-01-01T00:00:00"] 0
           (Scenario.timed "2024-01-01T05:00:00" "2024-01-01T00:00:00")
           1704085200000000 1704067200000000);
    try reflexivity; lia.
Defined.

(** X16.  With a threshold below zero, and not below what a 64-bit integer
    holds, every row of the table that the engine reads as ingested at or
    after its creation is returned, provided no text of the table makes the
    parser raise. *)
Theorem filter_late_logs_negative_threshold `{Datetime.Session} {R : Type}
    `{TimeColumns R} (data : list R) (hours : Z) (r : R)
    (tc ti : Datetime.timestamp) :
  Spec.readable data -> In r data ->
  Datetime.to_timestamp (createdAt_col r) Datetime.pattern
  = Py.Return (Some tc) ->
  Datetime.to_timestamp (ingestedAt_col r) Datetime.pattern
  = Py.Return (Some ti) ->
  tc <= ti -> - 2 ^ 63 <= hours < 0 ->
  exists late,
    Etl.filter_late_logs data hours = Py.Return late
    /\ Spec.retained late r.
Proof.
  intros Hread Hr Hc Hi Hle Hh.
  destruct (proj1 (filter_late_logs_readable data hours) Hread) as [late E].
  exists late. split; [exact E|]. apply (retained_iff _ _ _ _ E).
  split; [exact Hr|]. exists tc, ti. repeat split; try assumption.
  pose proof (Z.quot_le_mono tc ti 1000000 ltac:(lia) Hle). lia.
Qed.

Lemma filter_late_logs_negative_threshold_witness :
  exists late,
    Etl.filter_late_logs (H := Scenario.utc)
      [Scenario.lag_1h_1s;
       Scenario.timed "2024-01-01T00:00:00" "2024-01-01T00:00:00"] (-1)
    = Py.Return late
    /\ Spec.retained late
         (Scenario.timed "2024-01-01T00:00:00" "2024-01-01T00:00:00").
Proof.
  apply (filter_late_logs_negative_threshold (H := Scenario.utc)
           [Scenario.lag_1h_1s;
            Scenario.timed "2024-01-01T00:00:00" "2024-01-01T00:00:00"] (-1)
           (Scenario.timed "2024-01-01T00:00:00" "2024-01-01T00:00:00")
           1704067200000000 1704067200000000);
    try reflexivity; try lia.
  - repeat constructor; eexists; vm_compute; reflexivity.
  - right. left. reflexivity.
Defined.

(** X19.  Whole hours come out exact.  When the engine reads the two cells
    of a row as timestamps a whole number [k] of hours apart, earlier or
    later, the column time_diff_hours holds exactly the double [k]: the
    division by 3600 rounds nothing away. *)
Theorem time_diff_whole_hours `{Datetime.Session} {R : Type}
    `{TimeColumns R} (r : R) (tc ti : Datetime.timestamp) (k : Z) :
  Datetime.to_timestamp (createdAt_col r) Datetime.pattern
  = Py.Return (Some tc) ->
  Datetime.to_timestamp (ingestedAt_col r) Datetime.pattern
  = Py.Return (Some ti) ->
  Z.quot ti 1000000 - Z.quot tc 1000000 = 3600 * k ->
  exists r',
    Etl.with_time_diff r = Py.Return r'
    /\ Late.time_diff_hours r' = Some (Sql.double_of_Z k).
Proof.
  intros Hc Hi Hk. eexists. split; [apply (with_time_diff_read r tc ti Hc Hi)|].
  cbn [Late.time_diff_hours]. rewrite Hk. f_equal.
  apply double_of_Z_hours.
  pose proof (unix_timestamp_range tc (to_timestamp_range _ _ _ Hc)).
  pose proof (unix_timestamp_range ti (to_timestamp_range _ _ _ Hi)).
  change (2 ^ 53) with 9007199254740992. lia.
Qed.

Lemma time_diff_whole_hours_witness :
  exists r',
    Etl.with_time_diff (H := Scenario.utc)
      (Scenario.timed "2024-02-28T22:00:00" "2024-03-01T01:00:00")
    = Py.Return r'
    /\ Late.time_diff_hours r' = Some (Sql.double_of_Z 27).
Proof.
  apply (time_diff_whole_hours (H := Scenario.utc)
           (Scenario.timed "2024-02-28T22:00:00" "2024-03-01T01:00:00")
           1709157600000000 1709254800000000 27);
    reflexivity.
Defined.

(** ** Thresholds and scores *)

Lemma scores_widen {R : Type} `{ScoreColumns R} (data data' : list R) :
  incl data data' ->
  Forall
    (fun s =>
       exists s',
         In s' (Etl.calculate_experiment_final_scores data')
         /\ Score.key s' = Score.key s
         /\ match Score.maxValue s, Score.maxValue s' with
            | Some x, Some x' => Sql.compareFloats x x' <> Gt
            | None, _ => True
            | Some _, None => False
            end
         /\ match Score.minValue s, Score.minValue s' with
            | Some x, Some x' => Sql.compareFloats x' x <> Gt
            | None, _ => True
            | Some _, None => False
            end)
    (Etl.calculate_experiment_final_scores data).
Proof.
  intros Hincl. apply Forall_forall. intros s Hs.
  pose proof (scores_extrema data s Hs) as [Hmax Hmin].
  apply scores_In in Hs. destruct Hs as [Hk _].
  set (vs' := map value_col (Etl.group_rows data' (Score.key s))).
  assert (Hsub : forall v,
             In v (map value_col (Etl.group_rows data (Score.key s))) ->
             In v vs').
  { intros v Hv. apply in_map_iff in Hv. destruct Hv as [r [<- Hr]].
    apply in_map. unfold Etl.group_rows in *. apply filter_In in Hr.
    apply filter_In. split; [apply Hincl|]; apply Hr. }
  exists (Score.mk (fst (Score.key s)) (snd (Score.key s))
            (Sql.max vs') (Sql.min vs')).
  split; [|split; [reflexivity|split]].
  - apply scores_In. cbn [Score.key Score.expId Score.metricId
                            Score.maxValue Score.minValue fst snd].
    split; [|split; reflexivity].
    apply in_map_iff in Hk. destruct Hk as [r [Hr Hin]].
    apply in_map_iff. exists r. split; [|apply Hincl; exact Hin].
    rewrite Hr. reflexivity.
  - cbn [Score.maxValue]. pose proof (max_is_max_of vs') as Hmax'.
    unfold Spec.is_max_of in *.
    destruct (Score.maxValue s) as [x|]; [|exact I].
    destruct Hmax as [Hx _]. apply Hsub in Hx.
    destruct (Sql.max vs') as [x'|].
    + destruct Hmax' as [_ Hub]. rewrite Forall_forall in Hub.
      exact (Hub _ Hx).
    + rewrite Forall_forall in Hmax'. specialize (Hmax' _ Hx). discriminate.
  - cbn [Score.minValue]. pose proof (min_is_min_of vs') as Hmin'.
    unfold Spec.is_min_of in *.
    destruct (Score.minValue s) as [x|]; [|exact I].
    destruct Hmin as [Hx _]. apply Hsub in Hx.
    destruct (Sql.min vs') as [x'|].
    + destruct Hmin' as [_ Hlb]. rewrite Forall_forall in Hlb.
      exact (Hlb _ Hx).
    + rewrite Forall_forall in Hmin'. specialize (Hmin' _ Hx). discriminate.
Qed.

(** X17.  Raising the threshold can only narrow the scores.  For
    [h1 <= h2] the two evaluations raise together or return together, and
    then every score row computed after filtering with [h2] has a row of the
    same key among those computed after filtering with [h1], whose maxValue
    is at least as great and whose minValue is at most as great. *)
Theorem scores_narrow_with_threshold `{Datetime.Session} {R : Type}
    `{TimeColumns R} `{ScoreColumns R} (data : list R) (h1 h2 : Z) :
  h1 <= h2 ->
  match
    Py.fmap Etl.calculate_experiment_final_scores
      (Etl.filter_late_logs data h1),
    Py.fmap Etl.calculate_experiment_final_scores
      (Etl.filter_late_logs data h2)
  with
  | Py.Return scores1, Py.Return scores2 =>
      Forall
        (fun s =>
           exists s',
             In s' scores1
             /\ Score.key s' = Score.key s
             /\ match Score.maxValue s, Score.maxValue s' with
                | Some x, Some x' => Sql.compareFloats x x' <> Gt
                | None, _ => True
                | Some _, None => False
                end
             /\ match Score.minValue s, Score.minValue s' with
                | Some x, Some x' => Sql.compareFloats x' x <> Gt
                | None, _ => True
                | Some _, None => False
                end)
        scores2
  | Py.Raise e1, Py.Raise e2 => e1 = e2
  | _, _ => False
  end.
Proof.
  intros Hle. pose proof (filter_late_logs_thresholds data h1 h2 Hle) as Hanti.
  unfold Py.fmap, Py.and_then.
  destruct (Etl.filter_late_logs data h1) as [late1|e1],
           (Etl.filter_late_logs data h2) as [late2|e2]; try exact Hanti.
  apply scores_widen. rewrite Hanti. apply incl_filter.
Qed.

Lemma scores_narrow_with_threshold_witness :
  match
    Py.fmap Etl.calculate_experiment_final_scores
      (Etl.filter_late_logs (H := Scenario.utc)
         [Scenario.lag_exactly_1h; Scenario.lag_1h_1s] 0),
    Py.fmap Etl.calculate_experiment_final_scores
      (Etl.filter_late_logs (H := Scenario.utc)
         [Scenario.lag_exactly_1h; Scenario.lag_1h_1s] 1)
  with
  | Py.Return scores1, Py.Return scores2 =>
      Forall
        (fun s =>
           exists s',
             In s' scores1
             /\ Score.key s' = Score.key s
             /\ match Score.maxValue s, Score.maxValue s' with
                | Some x, Some x' => Sql.compareFloats x x' <> Gt
                | None, _ => True
                | Some _, None => False
                end
             /\ match Score.minValue s, Score.minValue s' with
                | Some x, Some x' => Sql.compareFloats x' x <> Gt
                | None, _ => True
                | Some _, None => False
                end)
        scores2
  | Py.Raise e1, Py.Raise e2 => e1 = e2
  | _, _ => False
  end.
Proof.
  apply (scores_narrow_with_threshold (H := Scenario.utc)
           [Scenario.lag_exactly_1h; Scenario.lag_1h_1s] 0 1).
  lia.
Defined.
